(** * LuxBase concurrency core: MutexLock and Thread

    A shallow embedding of [include/Base/mutex.h] and [src/thread.cc].

    - Integers of the program ([int], [pid_t], [std::atomic_int32_t]) are [Z]
      with the 32-bit wrap-around written out.
    - Member functions that run to completion on one thread are functions on
      records.
    - Code whose meaning depends on another thread ([Thread::start] against
      [ThreadData::runThread], [MutexLock::lock] against [MutexLock::unlock])
      is a statement-level step function per thread; the threads are
      interleaved by a step relation.
    - A [std::string] handed to C as [c_str()] ([%s] of [fprintf], [prctl],
      a [const char*] thread name) is read up to its first NUL byte. *)

From Stdlib Require Import ZArith List String Ascii Bool Lia.
Import ListNotations.

Local Open Scope string_scope.
Local Open Scope Z_scope.

(* ================================================================== *)
(** ** The C library pieces the sources call *)
(* ================================================================== *)

Module Stdio.

(** The character of one decimal digit, ['0' + d]. *)
Definition digit (d : Z) : ascii := ascii_of_nat (48 + Z.to_nat d).

(** Decimal digits of [n], least significant first, at most [fuel] of
    them.  An [int] has at most ten. *)
Fixpoint digits_le (fuel : nat) (n : Z) : list Z :=
  match fuel with
  | O => []
  | S fuel' =>
      (n mod 10) :: (if n / 10 =? 0 then [] else digits_le fuel' (n / 10))
  end.

Definition utoa (n : Z) : string :=
  string_of_list_ascii (map digit (rev (digits_le 10 n))).

(** The conversion [%d] applied to an [int]. *)
Definition fmt_d (v : Z) : string :=
  if v <? 0 then String "-" (utoa (- v)) else utoa v.

(** [%5d]: right-justified in a field of five. *)
Fixpoint spaces (n : nat) : string :=
  match n with
  | O => ""
  | S n' => String " " (spaces n')
  end.

Definition fmt_5d (v : Z) : string :=
  let s := fmt_d v in spaces (5 - String.length s) ++ s.

(** [snprintf(buf, size, ...)]: [buf] receives at most [size - 1]
    characters of the formatted text, the return value is the length of
    the whole text. *)
Definition snprintf (size : nat) (text : string) : string * Z :=
  (substring 0 (size - 1) text, Z.of_nat (String.length text)).

End Stdio.

(** Value range of [int32_t] and the wrap-around of its arithmetic. *)
Definition INT32_MIN : Z := - 2 ^ 31.
Definition INT32_MAX : Z := 2 ^ 31 - 1.
Definition int32 (z : Z) : Prop := INT32_MIN <= z <= INT32_MAX.
Definition wrap32 (z : Z) : Z := (z + 2 ^ 31) mod 2 ^ 32 - 2 ^ 31.

(* ================================================================== *)
(** ** Build configuration and the checking macros of mutex.h *)
(* ================================================================== *)

(** The two preprocessor symbols the sources test. *)
Record Build := mkBuild {
  NDEBUG : bool;
  CHECK_PTHREAD_RETURN_VALUE : bool
}.

(** [assert(cond)]: with [NDEBUG] it expands to nothing; otherwise a false
    condition aborts the process. *)
Definition assert_passes (b : Build) (cond : bool) : bool :=
  NDEBUG b || cond.

(** [MCHECK(ret)], mutex.h lines 78-102: with
    [CHECK_PTHREAD_RETURN_VALUE] a non-zero code goes to
    [__assert_perror_fail] in every build; without it the macro is
    [assert(errnum == 0)]. *)
Definition MCHECK_passes (b : Build) (ret : Z) : bool :=
  if CHECK_PTHREAD_RETURN_VALUE b then ret =? 0
  else assert_passes b (ret =? 0).

(** How a member function that runs on one thread ends. *)
Inductive Run (A : Type) : Type :=
| Done (a : A)          (* returned, leaving state [a] *)
| Blocked               (* the calling thread cannot proceed *)
| Fatal (a : A).        (* the process was aborted in state [a] *)
Arguments Done {A} a.
Arguments Blocked {A}.
Arguments Fatal {A} a.

(* ================================================================== *)
(** ** CurrentThread: the per-thread identity cache *)
(* ================================================================== *)

Module CurrentThread.

(** A [char] array: its declared size and the text it holds. *)
Record CharBuf := mkCharBuf {
  capacity : nat;
  content : string
}.

(** The [__thread] variables. *)
Record TLS := mkTLS {
  t_cachedTid : Z;
  t_tidString : CharBuf;
  t_tidStringLength : Z;
  t_threadName : string
}.

(** A running thread: the id the kernel gave it (what
    [::syscall(SYS_gettid)] returns on it) and its thread-locals. *)
Record Self := mkSelf {
  kernel_tid : Z;
  tls : TLS
}.

(** [detail::gettid()], thread.cc lines 22-29. *)
Definition gettid (me : Self) : Z := kernel_tid me.

(** [CurrentThread::cacheTid()], thread.cc lines 128-134. *)
Definition cacheTid (me : Self) : Self :=
  let t := tls me in
  if t_cachedTid t =? 0 then
    let v := gettid me in
    let '(buf, n) :=
      Stdio.snprintf (capacity (t_tidString t)) (Stdio.fmt_5d v ++ " ") in
    mkSelf (kernel_tid me)
           (mkTLS v (mkCharBuf (capacity (t_tidString t)) buf) n
                  (t_threadName t))
  else me.

(** Modelled from the spec: [CurrentThread::tid()] is declared in the
    absent header Base/currentThread.h; "returns the calling thread's
    cached identifier, computing and caching it on first call per
    thread". *)
Definition tid (me : Self) : Z * Self :=
  let me' := if t_cachedTid (tls me) =? 0 then cacheTid me else me in
  (t_cachedTid (tls me'), me').

Definition set_threadName (s : string) (me : Self) : Self :=
  let t := tls me in
  mkSelf (kernel_tid me)
         (mkTLS (t_cachedTid t) (t_tidString t) (t_tidStringLength t) s).

Definition set_cachedTid (v : Z) (me : Self) : Self :=
  let t := tls me in
  mkSelf (kernel_tid me)
         (mkTLS v (t_tidString t) (t_tidStringLength t) (t_threadName t)).

(** [detail::afterFork()], thread.cc lines 34-41. *)
Definition afterFork (me : Self) : Self :=
  snd (tid (set_threadName "main" (set_cachedTid 0 me))).

(** Modelled from the spec: the thread-locals are defined in an absent
    source file; the identity is "lazily computed", so a thread starts
    with an empty cache.  The initial display name and the size of the
    text buffer are left to the caller. *)
Definition fresh (ktid : Z) (bufsize : nat) (name0 : string) : Self :=
  mkSelf ktid (mkTLS 0 (mkCharBuf bufsize "") 0 name0).

(** The cache holds nothing or the kernel's id. *)
Definition coherent (me : Self) : Prop :=
  t_cachedTid (tls me) = 0 \/ t_cachedTid (tls me) = kernel_tid me.

End CurrentThread.

(* ================================================================== *)
(** ** mutex.h: MutexLock *)
(* ================================================================== *)

(** The state of a [pthread_mutex_t] of type [PTHREAD_MUTEX_NORMAL]. *)
Inductive pthread_mutex_t : Type :=
| Uninitialised
| Unlocked
| Locked
| Destroyed.

Definition EINVAL : Z := 22.
Definition EBUSY : Z := 16.

Definition pthread_mutex_init (m : pthread_mutex_t) : Z * pthread_mutex_t :=
  (0, Unlocked).

(** [None]: the caller blocks (a normal mutex is not re-entrant). *)
Definition pthread_mutex_lock (m : pthread_mutex_t)
  : option (Z * pthread_mutex_t) :=
  match m with
  | Unlocked => Some (0, Locked)
  | Locked => None
  | _ => Some (EINVAL, m)
  end.

Definition pthread_mutex_unlock (m : pthread_mutex_t) : Z * pthread_mutex_t :=
  match m with
  | Locked | Unlocked => (0, Unlocked)
  | _ => (EINVAL, m)
  end.

Definition pthread_mutex_destroy (m : pthread_mutex_t) : Z * pthread_mutex_t :=
  match m with
  | Unlocked => (0, Destroyed)
  | Locked => (EBUSY, m)
  | _ => (EINVAL, m)
  end.

(** [class MutexLock], mutex.h lines 113-199 ([mutexAttr_] only selects
    the normal type above). *)
Record MutexLock := mkMutexLock {
  mutex_ : pthread_mutex_t;
  holder_ : Z
}.

Definition set_mutex_ (mu : pthread_mutex_t) (m : MutexLock) : MutexLock :=
  mkMutexLock mu (holder_ m).

(** [MutexLock::MutexLock()], lines 120-124. *)
Definition MutexLock_ctor (b : Build) : Run MutexLock :=
  let m := mkMutexLock Uninitialised 0 in
  let '(rc, mu) := pthread_mutex_init (mutex_ m) in
  if MCHECK_passes b rc then Done (set_mutex_ mu m) else Fatal (set_mutex_ mu m).

(** [MutexLock::~MutexLock()], lines 126-129. *)
Definition MutexLock_dtor (b : Build) (m : MutexLock) : Run MutexLock :=
  if assert_passes b (holder_ m =? 0) then
    let '(rc, mu) := pthread_mutex_destroy (mutex_ m) in
    if MCHECK_passes b rc then Done (set_mutex_ mu m)
    else Fatal (set_mutex_ mu m)
  else Fatal m.

(** [unassignHolder()], line 177. *)
Definition unassignHolder (m : MutexLock) : MutexLock :=
  mkMutexLock (mutex_ m) 0.

(** [assignHolder()], line 179. *)
Definition assignHolder (me : CurrentThread.Self) (m : MutexLock)
  : CurrentThread.Self * MutexLock :=
  let '(v, me') := CurrentThread.tid me in
  (me', mkMutexLock (mutex_ m) v).

(** [isLockedByThisThread()], lines 133-135. *)
Definition isLockedByThisThread (me : CurrentThread.Self) (m : MutexLock)
  : bool * CurrentThread.Self :=
  let '(v, me') := CurrentThread.tid me in
  (holder_ m =? v, me').

(** [assertLocked()], lines 137-139. *)
Definition assertLocked (b : Build) (me : CurrentThread.Self) (m : MutexLock)
  : Run CurrentThread.Self :=
  let '(held, me') := isLockedByThisThread me m in
  if assert_passes b held then Done me' else Fatal me'.

(** The two statements of [lock()], lines 148 and 149. *)
Definition lock_acquire (b : Build) (m : MutexLock) : Run MutexLock :=
  match pthread_mutex_lock (mutex_ m) with
  | None => Blocked
  | Some (rc, mu) =>
      if MCHECK_passes b rc then Done (set_mutex_ mu m)
      else Fatal (set_mutex_ mu m)
  end.

Definition lock_assign := assignHolder.

(** [MutexLock::lock()], lines 146-150. *)
Definition lock (b : Build) (me : CurrentThread.Self) (m : MutexLock)
  : Run (CurrentThread.Self * MutexLock) :=
  match lock_acquire b m with
  | Done m1 => Done (lock_assign me m1)
  | Blocked => Blocked
  | Fatal m1 => Fatal (me, m1)
  end.

(** The two statements of [unlock()], lines 158 and 159. *)
Definition unlock_clear := unassignHolder.

Definition unlock_release (b : Build) (m : MutexLock) : Run MutexLock :=
  let '(rc, mu) := pthread_mutex_unlock (mutex_ m) in
  if MCHECK_passes b rc then Done (set_mutex_ mu m)
  else Fatal (set_mutex_ mu m).

(** [MutexLock::unlock()], lines 157-160. *)
Definition unlock (b : Build) (m : MutexLock) : Run MutexLock :=
  unlock_release b (unlock_clear m).

(** *** UnassignGuard, lines 184-198 *)

(** How a C++ scope is left. *)
Inductive Exit : Type :=
| Normally
| ByException.

(** The constructor, lines 190-192. *)
Definition UnassignGuard_ctor (owner : MutexLock) : MutexLock :=
  unassignHolder owner.

(** The destructor, line 194. *)
Definition UnassignGuard_dtor (me : CurrentThread.Self) (owner : MutexLock)
  : CurrentThread.Self * MutexLock :=
  assignHolder me owner.

(** A block [{ UnassignGuard ug(owner); body }].  The body is any code
    acting on the thread's locals and on the mutex and leaving the scope
    either way; the destructor of the local [ug] runs when the scope is
    left, by a normal exit or while an exception unwinds it. *)
Definition UnassignGuard_scope
    (body : CurrentThread.Self -> MutexLock ->
            CurrentThread.Self * MutexLock * Exit)
    (me : CurrentThread.Self) (owner : MutexLock)
  : CurrentThread.Self * MutexLock * Exit :=
  let owner1 := UnassignGuard_ctor owner in
  let '(me2, owner2, how) := body me owner1 in
  let '(me3, owner3) := UnassignGuard_dtor me2 owner2 in
  (me3, owner3, how).

(** *** Threads racing for one MutexLock through MutexLockGuard *)

(** Where a thread stands in
    [{ MutexLockGuard g(m);  ...  }], mutex.h lines 215-218. *)
Inductive GuardPC : Type :=
| Outside        (* no guard alive *)
| Acquired       (* in lock(), after line 148 *)
| InScope        (* lock() returned; the guarded region *)
| Cleared.       (* in unlock(), after line 158 *)

Record Contender := mkContender {
  pc : GuardPC;
  self : CurrentThread.Self
}.

Record MutexSys := mkMutexSys {
  mtx : MutexLock;
  contenders : nat -> Contender;
  crashed : bool
}.

Definition update (f : nat -> Contender) (i : nat) (c : Contender)
  : nat -> Contender :=
  fun j => if Nat.eqb j i then c else f j.

(** One statement of thread [i]; [None] when it cannot move. *)
Definition guard_step (b : Build) (i : nat) (s : MutexSys) : option MutexSys :=
  if crashed s then None else
  let c := contenders s i in
  match pc c with
  | Outside =>                        (* line 148 *)
      match lock_acquire b (mtx s) with
      | Done m' =>
          Some (mkMutexSys m' (update (contenders s) i
                                      (mkContender Acquired (self c))) false)
      | Blocked => None
      | Fatal m' => Some (mkMutexSys m' (contenders s) true)
      end
  | Acquired =>                       (* line 149 *)
      let '(me', m') := lock_assign (self c) (mtx s) in
      Some (mkMutexSys m' (update (contenders s) i (mkContender InScope me'))
                       false)
  | InScope =>                        (* line 158 *)
      Some (mkMutexSys (unlock_clear (mtx s))
                       (update (contenders s) i (mkContender Cleared (self c)))
                       false)
  | Cleared =>                        (* line 159 *)
      match unlock_release b (mtx s) with
      | Done m' =>
          Some (mkMutexSys m' (update (contenders s) i
                                      (mkContender Outside (self c))) false)
      | Blocked => None
      | Fatal m' => Some (mkMutexSys m' (contenders s) true)
      end
  end.

(** A schedule names the thread that runs next; a thread that cannot move
    leaves the state as it is. *)
Fixpoint guard_run (b : Build) (sched : list nat) (s : MutexSys) : MutexSys :=
  match sched with
  | [] => s
  | i :: rest =>
      match guard_step b i s with
      | Some s' => guard_run b rest s'
      | None => guard_run b rest s
      end
  end.

(** A freshly constructed mutex and threads that hold no guard. *)
Definition guard_init (ktid : nat -> Z) (bufsize : nat) (name0 : string)
  : MutexSys :=
  mkMutexSys (mkMutexLock Unlocked 0)
             (fun i => mkContender Outside
                         (CurrentThread.fresh (ktid i) bufsize name0))
             false.

(* ================================================================== *)
(** ** mutex.h: MutexLockGuard *)
(* ================================================================== *)

(** [MutexLockGuard::MutexLockGuard(mutex)], mutex.h lines 215-217. *)
Definition MutexLockGuard_ctor (b : Build) (me : CurrentThread.Self)
    (m : MutexLock) : Run (CurrentThread.Self * MutexLock) :=
  lock b me m.

(** [MutexLockGuard::~MutexLockGuard()], line 218. *)
Definition MutexLockGuard_dtor (b : Build) (m : MutexLock) : Run MutexLock :=
  unlock b m.

(** A block [{ MutexLockGuard g(m); body }] run by one thread with no
    other thread moving: the constructor, the body, and the destructor on
    either way out of the body. *)
Definition MutexLockGuard_scope (b : Build)
    (body : CurrentThread.Self -> MutexLock ->
            CurrentThread.Self * MutexLock * Exit)
    (me : CurrentThread.Self) (m : MutexLock)
  : Run (CurrentThread.Self * MutexLock * Exit) :=
  match MutexLockGuard_ctor b me m with
  | Done (me1, m1) =>
      let '(me2, m2, how) := body me1 m1 in
      match MutexLockGuard_dtor b m2 with
      | Done m3 => Done (me2, m3, how)
      | Blocked => Blocked
      | Fatal m3 => Fatal (me2, m3, how)
      end
  | Blocked => Blocked
  | Fatal (me1, m1) => Fatal (me1, m1, Normally)
  end.

(** The position after the next statement of a thread inside a guard. *)
Definition next_guard_pc (p : GuardPC) : GuardPC :=
  match p with
  | Outside => Acquired
  | Acquired => InScope
  | InScope => Cleared
  | Cleared => Outside
  end.

(* ================================================================== *)
(** ** thread.cc: Thread and the trampoline *)
(* ================================================================== *)

(** What the user function does when it is called: it returns, it
    throws, or it does not come back because the thread is being ended
    inside it.  The three kinds of exception are the three handlers of
    [runThread], in the order the handlers are tried; [what] and
    [stackTrace] are what [ex.what()] and [ex.stackTrace()] point to. *)
Inductive Exn : Type :=
| LuteException (what stackTrace : string)
| StdException (what : string)
| OtherException.

Inductive Completion : Type :=
| Returns
| Throws (e : Exn)
| Unwinds.    (* [pthread_exit] or a cancellation inside the function: the
                 forced unwinding of the stack, which [catch (...)]
                 intercepts and the [throw;] of line 109 lets go on *)

(** The handler of [runThread] that is entered, if any. *)
Definition caught (f : Completion) : option Exn :=
  match f with
  | Returns => None
  | Throws ex => Some ex
  | Unwinds => Some OtherException
  end.

Definition ThreadFunc : Type := Completion.

(** Modelled from the spec: [CountDownLatch] is declared in an absent
    header; "a countdown latch of initial count 1", "signaled exactly once
    by the spawned thread", "the creator blocks on it". *)
Record CountDownLatch := mkLatch { count_ : Z }.

Definition countDown (l : CountDownLatch) : CountDownLatch :=
  mkLatch (count_ l - 1).

(** [wait()] returns once the count is no longer positive. *)
Definition wait_returns (l : CountDownLatch) : bool := count_ l <=? 0.

(** [class Thread]: the members initialised at thread.cc lines 155-162. *)
Record Thread := mkThread {
  started_ : bool;
  joined_ : bool;
  pthreadId_ : Z;
  tid_ : Z;
  func_ : ThreadFunc;
  name_ : string;
  latch_ : CountDownLatch
}.

Definition set_started_ (v : bool) (t : Thread) : Thread :=
  mkThread v (joined_ t) (pthreadId_ t) (tid_ t) (func_ t) (name_ t) (latch_ t).
Definition set_joined_ (v : bool) (t : Thread) : Thread :=
  mkThread (started_ t) v (pthreadId_ t) (tid_ t) (func_ t) (name_ t) (latch_ t).
Definition set_pthreadId_ (v : Z) (t : Thread) : Thread :=
  mkThread (started_ t) (joined_ t) v (tid_ t) (func_ t) (name_ t) (latch_ t).
Definition set_tid_ (v : Z) (t : Thread) : Thread :=
  mkThread (started_ t) (joined_ t) (pthreadId_ t) v (func_ t) (name_ t) (latch_ t).
Definition set_name_ (v : string) (t : Thread) : Thread :=
  mkThread (started_ t) (joined_ t) (pthreadId_ t) (tid_ t) (func_ t) v (latch_ t).
Definition set_latch_ (v : CountDownLatch) (t : Thread) : Thread :=
  mkThread (started_ t) (joined_ t) (pthreadId_ t) (tid_ t) (func_ t) (name_ t) v.

(** [std::string::empty()]. *)
Definition empty (s : string) : bool :=
  match s with
  | EmptyString => true
  | String _ _ => false
  end.

(** [std::string::c_str()] as the C functions read it ([%s] of [fprintf],
    [prctl], a [const char*] thread name): the bytes before the first
    NUL. *)
Fixpoint c_str (s : string) : string :=
  match s with
  | EmptyString => EmptyString
  | String ch rest =>
      if Ascii.eqb ch Ascii.zero then EmptyString else String ch (c_str rest)
  end.

(** [numCreated_.fetch_add(1)] on the [std::atomic_int32_t]: the value
    before the addition is returned, the stored value wraps. *)
Definition fetch_add (numCreated_ : Z) (k : Z) : Z * Z :=
  (numCreated_, wrap32 (numCreated_ + k)).

(** [Thread::setDefaultName()], thread.cc lines 173-181.  The global
    counter is passed in and out. *)
Definition setDefaultName (numCreated_ : Z) (t : Thread) : Z * Thread :=
  let '(num, numCreated') := fetch_add numCreated_ 1 in
  if empty (name_ t) then
    let '(buf, _) := Stdio.snprintf 32 ("Thread" ++ Stdio.fmt_d num) in
    (numCreated', set_name_ buf t)
  else (numCreated', t).

(** [Thread::Thread(func, name)], lines 155-164. *)
Definition Thread_ctor (numCreated_ : Z) (func : ThreadFunc) (name : string)
  : Z * Thread :=
  setDefaultName numCreated_ (mkThread false false 0 0 func name (mkLatch 1)).

(** [Thread::~Thread()], lines 166-170: whether [pthread_detach] is
    called. *)
Definition Thread_dtor_detaches (t : Thread) : bool :=
  started_ t && negb (joined_ t).

(** Constructing one Thread per requested name, in order. *)
Fixpoint construct_all (numCreated_ : Z) (func : ThreadFunc)
    (names : list string) : Z * list Thread :=
  match names with
  | [] => (numCreated_, [])
  | n :: rest =>
      let '(c1, t) := Thread_ctor numCreated_ func n in
      let '(c2, ts) := construct_all c1 func rest in
      (c2, t :: ts)
  end.

(** The value of the zero-initialised static [Thread::numCreated_],
    line 153, before any Thread is constructed. *)
Definition numCreated_initial : Z := 0.

Module detail.

(** The two pointers a [ThreadData] holds point into the Thread that
    made it. *)
Inductive pointer : Type :=
| nullptr
| addr_of_tid_
| addr_of_latch_.

(** [struct ThreadData], thread.cc lines 58-76. *)
Record ThreadData := mkThreadData {
  func_ : ThreadFunc;
  name_ : string;
  tid_ : pointer;
  latch_ : pointer
}.

End detail.

(** What the process is told by the environment during [start()] and
    [join()]. *)
Record Env := mkEnv {
  build : Build;
  create_rc : Z;           (* what pthread_create returns *)
  create_id : Z;           (* the pthread_t it stores on success *)
  spawned_tid : Z;         (* the kernel id of the new thread *)
  tidbuf_size : nat;       (* sizeof(t_tidString) *)
  initial_name : string;   (* t_threadName of a new thread *)
  errno_text : string;     (* strerror(errno) when perror runs *)
  join_rc : Z              (* what pthread_join returns *)
}.

(** Where the thread calling [start()] or [join()] stands. *)
Inductive CallerPC : Type :=
| StartAssert       (* line 189  assert(!started_) *)
| StartSetStarted   (* line 190  started_ = true *)
| StartNew          (* line 193  new ThreadData(...) *)
| StartCreate       (* line 198  pthread_create(...) *)
| StartRollback     (* line 199  started_ = false *)
| StartDelete       (* line 200  delete data *)
| StartPerror       (* line 202  perror(...) *)
| StartAbort        (* line 203  abort() *)
| StartWait         (* line 205  latch_.wait() *)
| StartAssertTid    (* line 206  assert(tid_ > 0) *)
| StartReturned     (* start() has returned *)
| JoinAssertStarted (* line 214  assert(started_) *)
| JoinAssertNotJoined (* line 215  assert(!joined_) *)
| JoinSetJoined     (* line 216  joined_ = true *)
| JoinPthreadJoin   (* line 218  pthread_join(...) *)
| JoinReturned (rc : Z).

(** Where the spawned thread stands in [startThread]/[runThread]. *)
Inductive CalleePC : Type :=
| NotSpawned
| RunPublish        (* line 80   *tid_ = CurrentThread::tid() *)
| RunForgetTid      (* line 81   tid_ = nullptr *)
| RunCountDown      (* line 82   latch_->countDown() *)
| RunForgetLatch    (* line 83   latch_ = nullptr *)
| RunSetName        (* lines 85-86 *)
| RunPrctl          (* line 87   ::prctl(PR_SET_NAME, ...) *)
| RunCall           (* line 90   func_() *)
| RunFinished       (* line 91   t_threadName = "finished" *)
| RunCatch (e : Exn) (k : nat)  (* before statement k of the handler for
                                   e; past its abort() once that ran *)
| RunEscaped (e : Exn)          (* line 109: e left runThread *)
| RunTerminated     (* an exception left startThread: std::terminate() *)
| RunUnwound        (* the forced unwinding ended the thread; line 120
                       was skipped *)
| RunDelete         (* line 120  delete data *)
| RunExited.        (* line 121  return nullptr *)

(** What the trampoline did, in the order it did it. *)
Inductive Event : Type :=
| EvPublish (v : Z)             (* stored v through tid_ *)
| EvCountDown                   (* signalled the latch *)
| EvThreadName (s : string)     (* assigned t_threadName *)
| EvPrctl (s : string)          (* called prctl(PR_SET_NAME, s) *)
| EvCall                        (* called func_ *)
| EvStderr (s : string)         (* wrote s to stderr *)
| EvAbort
| EvRethrow
| EvDelete.

Record World := mkWorld {
  thread : Thread;                      (* the Thread object *)
  heap : option detail.ThreadData;      (* the record made by new *)
  caller : CallerPC;
  callee : CalleePC;
  callee_self : CurrentThread.Self;     (* the spawned thread's locals *)
  os_name : string;                     (* its name as the kernel has it *)
  calls : nat;                          (* how often func_ was entered *)
  stderr : list string;
  aborted : bool;
  trace : list Event
}.

Definition set_thread v w :=
  mkWorld v (heap w) (caller w) (callee w) (callee_self w) (os_name w)
          (calls w) (stderr w) (aborted w) (trace w).
Definition set_heap v w :=
  mkWorld (thread w) v (caller w) (callee w) (callee_self w) (os_name w)
          (calls w) (stderr w) (aborted w) (trace w).
Definition set_caller v w :=
  mkWorld (thread w) (heap w) v (callee w) (callee_self w) (os_name w)
          (calls w) (stderr w) (aborted w) (trace w).
Definition set_callee v w :=
  mkWorld (thread w) (heap w) (caller w) v (callee_self w) (os_name w)
          (calls w) (stderr w) (aborted w) (trace w).
Definition set_callee_self v w :=
  mkWorld (thread w) (heap w) (caller w) (callee w) v (os_name w)
          (calls w) (stderr w) (aborted w) (trace w).
Definition set_os_name v w :=
  mkWorld (thread w) (heap w) (caller w) (callee w) (callee_self w) v
          (calls w) (stderr w) (aborted w) (trace w).
Definition set_calls v w :=
  mkWorld (thread w) (heap w) (caller w) (callee w) (callee_self w) (os_name w)
          v (stderr w) (aborted w) (trace w).
Definition set_aborted v w :=
  mkWorld (thread w) (heap w) (caller w) (callee w) (callee_self w) (os_name w)
          (calls w) (stderr w) v (trace w).

(** [fprintf(stderr, ...)] and [perror] append to the stream. *)
Definition write_stderr (s : string) (w : World) : World :=
  mkWorld (thread w) (heap w) (caller w) (callee w) (callee_self w) (os_name w)
          (calls w) (stderr w ++ [s])%list (aborted w) (trace w).

Definition log (ev : Event) (w : World) : World :=
  mkWorld (thread w) (heap w) (caller w) (callee w) (callee_self w) (os_name w)
          (calls w) (stderr w) (aborted w) (trace w ++ [ev])%list.

Definition newline : string := String (ascii_of_nat 10) "".

(** [perror(s)]: the text, a colon, the message for [errno]. *)
Definition perror (e : Env) (s : string) (w : World) : World :=
  write_stderr (s ++ ": " ++ errno_text e ++ newline) w.

(** [prctl(PR_SET_NAME, s)]: the kernel keeps the first 15 bytes of the
    C string. *)
Definition prctl_set_name (s : string) (w : World) : World :=
  set_os_name (substring 0 15 (c_str s)) w.

(** [abort()]. *)
Definition abort (w : World) : World := set_aborted true w.

(** *** The caller: [Thread::start()] and [Thread::join()] *)

(** One statement of the calling thread; [None] when it cannot move
    (blocked, returned, or the process is gone). *)
Definition caller_step (e : Env) (w : World) : option World :=
  if aborted w then None else
  let t := thread w in
  match caller w with
  | StartAssert =>
      if assert_passes (build e) (negb (started_ t))
      then Some (set_caller StartSetStarted w)
      else Some (abort w)
  | StartSetStarted =>
      Some (set_caller StartNew (set_thread (set_started_ true t) w))
  | StartNew =>
      let data := detail.mkThreadData (func_ t) (name_ t)
                    detail.addr_of_tid_ detail.addr_of_latch_ in
      Some (set_caller StartCreate (set_heap (Some data) w))
  | StartCreate =>
      if create_rc e =? 0 then
        (* the new thread exists and is about to run startThread(data) *)
        let me := CurrentThread.fresh (spawned_tid e) (tidbuf_size e)
                                      (initial_name e) in
        Some (set_caller StartWait
               (set_callee RunPublish
                 (set_callee_self me
                   (set_thread (set_pthreadId_ (create_id e) t) w))))
      else Some (set_caller StartRollback w)
  | StartRollback =>
      Some (set_caller StartDelete (set_thread (set_started_ false t) w))
  | StartDelete =>
      Some (set_caller StartPerror (set_heap None w))
  | StartPerror =>
      Some (set_caller StartAbort (perror e "Failed in pthread_create" w))
  | StartAbort =>
      Some (abort w)
  | StartWait =>
      if wait_returns (latch_ t) then Some (set_caller StartAssertTid w)
      else None
  | StartAssertTid =>
      if assert_passes (build e) (0 <? tid_ t)
      then Some (set_caller StartReturned w)
      else Some (abort w)
  | StartReturned => None
  | JoinAssertStarted =>
      if assert_passes (build e) (started_ t)
      then Some (set_caller JoinAssertNotJoined w)
      else Some (abort w)
  | JoinAssertNotJoined =>
      if assert_passes (build e) (negb (joined_ t))
      then Some (set_caller JoinSetJoined w)
      else Some (abort w)
  | JoinSetJoined =>
      Some (set_caller JoinPthreadJoin (set_thread (set_joined_ true t) w))
  | JoinPthreadJoin =>
      (* pthread_join waits for a thread that is still running *)
      match callee w with
      | NotSpawned | RunExited | RunUnwound =>
          Some (set_caller (JoinReturned (join_rc e)) w)
      | _ => None
      end
  | JoinReturned _ => None
  end.

(** Entering the two member functions. *)
Definition call_start (w : World) : World := set_caller StartAssert w.
Definition call_join (w : World) : World := set_caller JoinAssertStarted w.

(** *** The spawned thread: [startThread] and [ThreadData::runThread] *)

Definition eprint (s : string) (w : World) : World :=
  log (EvStderr s) (write_stderr s w).

Definition set_display_name (s : string) (w : World) : World :=
  log (EvThreadName s)
      (set_callee_self (CurrentThread.set_threadName s (callee_self w)) w).

(** The three [catch] blocks of [runThread], lines 92-110, statement by
    statement.  Every [%s] prints a C string. *)
Definition handler (ex : Exn) (k : nat) (d : detail.ThreadData) (w : World)
  : option World :=
  match ex, k with
  | LuteException what stackTrace, 0%nat =>          (* line 93 *)
      Some (set_callee (RunCatch ex 1) (set_display_name "crashed" w))
  | LuteException what stackTrace, 1%nat =>          (* lines 94-95 *)
      Some (set_callee (RunCatch ex 2)
             (eprint ("exception caught in Thread " ++ c_str (detail.name_ d)
                      ++ newline) w))
  | LuteException what stackTrace, 2%nat =>          (* line 96 *)
      Some (set_callee (RunCatch ex 3)
             (eprint ("reason: " ++ c_str what ++ newline) w))
  | LuteException what stackTrace, 3%nat =>          (* line 97 *)
      Some (set_callee (RunCatch ex 4)
             (eprint ("stack trace: " ++ c_str stackTrace ++ newline) w))
  | LuteException what stackTrace, 4%nat =>          (* line 98 *)
      Some (set_callee (RunCatch ex 5) (log EvAbort (abort w)))
  | StdException what, 0%nat =>                      (* line 100 *)
      Some (set_callee (RunCatch ex 1) (set_display_name "crashed" w))
  | StdException what, 1%nat =>                      (* lines 101-102 *)
      Some (set_callee (RunCatch ex 2)
             (eprint ("exception caught in Thread " ++ c_str (detail.name_ d)
                      ++ newline) w))
  | StdException what, 2%nat =>                      (* line 103 *)
      Some (set_callee (RunCatch ex 3)
             (eprint ("reason: " ++ c_str what ++ newline) w))
  | StdException what, 3%nat =>                      (* line 104 *)
      Some (set_callee (RunCatch ex 4) (log EvAbort (abort w)))
  | OtherException, 0%nat =>                         (* line 106 *)
      Some (set_callee (RunCatch ex 1) (set_display_name "crashed" w))
  | OtherException, 1%nat =>                         (* lines 107-108 *)
      Some (set_callee (RunCatch ex 2)
             (eprint ("unknown exception caught in Thread "
                      ++ c_str (detail.name_ d) ++ newline) w))
  | OtherException, 2%nat =>                         (* line 109 *)
      Some (set_callee (RunEscaped ex) (log EvRethrow w))
  | _, _ => None
  end.

(** One statement of the spawned thread.  [data] is the record on the
    heap; a state in which the code would touch a record that is not
    there has no successor.  What is rethrown at line 109 leaves
    [runThread] and [startThread], which have no handler for it: a C++
    exception ends in [std::terminate()], which aborts the process; a
    forced unwinding ends the thread, and the [delete data] of line 120 is
    never reached. *)
Definition callee_step (e : Env) (w : World) : option World :=
  if aborted w then None else
  match callee w, heap w with
  | RunPublish, Some d =>
      let '(v, me') := CurrentThread.tid (callee_self w) in
      match detail.tid_ d with
      | detail.addr_of_tid_ =>
          Some (set_callee RunForgetTid
                 (log (EvPublish v)
                   (set_thread (set_tid_ v (thread w))
                     (set_callee_self me' w))))
      | _ => None
      end
  | RunForgetTid, Some d =>
      let d' := detail.mkThreadData (detail.func_ d) (detail.name_ d)
                  detail.nullptr (detail.latch_ d) in
      Some (set_callee RunCountDown (set_heap (Some d') w))
  | RunCountDown, Some d =>
      match detail.latch_ d with
      | detail.addr_of_latch_ =>
          Some (set_callee RunForgetLatch
                 (log EvCountDown
                   (set_thread
                     (set_latch_ (countDown (latch_ (thread w))) (thread w))
                     w)))
      | _ => None
      end
  | RunForgetLatch, Some d =>
      let d' := detail.mkThreadData (detail.func_ d) (detail.name_ d)
                  (detail.tid_ d) detail.nullptr in
      Some (set_callee RunSetName (set_heap (Some d') w))
  | RunSetName, Some d =>
      let nm := if empty (detail.name_ d) then "LuteThread"
                else c_str (detail.name_ d) in
      Some (set_callee RunPrctl (set_display_name nm w))
  | RunPrctl, Some d =>
      let nm := CurrentThread.t_threadName
                  (CurrentThread.tls (callee_self w)) in
      Some (set_callee RunCall (log (EvPrctl nm) (prctl_set_name nm w)))
  | RunCall, Some d =>
      let w1 := log EvCall (set_calls (S (calls w)) w) in
      match caught (detail.func_ d) with
      | None => Some (set_callee RunFinished w1)
      | Some ex => Some (set_callee (RunCatch ex 0) w1)
      end
  | RunFinished, Some d =>
      Some (set_callee RunDelete (set_display_name "finished" w))
  | RunCatch ex k, Some d => handler ex k d w
  | RunEscaped ex, Some d =>
      match detail.func_ d with
      | Unwinds => Some (set_callee RunUnwound w)
      | _ => Some (set_callee RunTerminated (log EvAbort (abort w)))
      end
  | RunDelete, Some d =>
      Some (set_callee RunExited (log EvDelete (set_heap None w)))
  | _, _ => None
  end.

(** *** The two threads together *)

Inductive Actor : Type :=
| Caller
| Callee.

Definition step (e : Env) (a : Actor) (w : World) : option World :=
  match a with
  | Caller => caller_step e w
  | Callee => callee_step e w
  end.

(** A schedule names the thread that runs next; a thread that cannot
    move leaves the world as it is. *)
Fixpoint exec (e : Env) (sched : list Actor) (w : World) : World :=
  match sched with
  | [] => w
  | a :: rest =>
      match step e a w with
      | Some w' => exec e rest w'
      | None => exec e rest w
      end
  end.

(** The world in which [t.start()] has just been entered. *)
Definition at_start (t : Thread) : World :=
  mkWorld t None StartAssert NotSpawned
          (CurrentThread.fresh 0 0 "") "" 0 [] false [].

(** What the trampoline does up to and including the call of the user
    function, for a record named [name] on a thread the kernel calls
    [ktid]. *)
Definition display_name (name : string) : string :=
  if empty name then "LuteThread" else c_str name.

Definition prologue (ktid : Z) (name : string) : list Event :=
  [EvPublish ktid; EvCountDown; EvThreadName (display_name name);
   EvPrctl (display_name name); EvCall].

(* ================================================================== *)
(** ** thread.cc: the rest of CurrentThread *)
(* ================================================================== *)

(** [struct timespec]. *)
Record timespec := mkTimespec {
  tv_sec : Z;
  tv_nsec : Z
}.

(** [kMicroSecondsPerSecond], thread.cc line 144 (the literal [1E6]
    converted to [int64_t]). *)
Definition kMicroSecondsPerSecond : Z := 1000000.

(** [CurrentThread::sleepUsec(usec)], thread.cc lines 142-149: the
    [timespec] that is handed to [nanosleep].  [/] and [%] on [int64_t]
    truncate towards zero. *)
Definition sleepUsec_timespec (usec : Z) : timespec :=
  mkTimespec (Z.quot usec kMicroSecondsPerSecond)
             (Z.rem usec kMicroSecondsPerSecond * 1000).

(** What [nanosleep] accepts: otherwise it returns at once with
    [EINVAL]. *)
Definition timespec_valid (ts : timespec) : Prop :=
  0 <= tv_sec ts /\ 0 <= tv_nsec ts <= 999999999.

(** The constructor of [detail::ThreadNameInitializer], thread.cc lines
    46-50, run on the thread that initialises the statics; it also
    registers [afterFork] as the child handler of [pthread_atfork]. *)
Definition ThreadNameInitializer (me : CurrentThread.Self)
  : CurrentThread.Self :=
  snd (CurrentThread.tid (CurrentThread.set_threadName "main" me)).

(** [CurrentThread::isMainThread()], thread.cc line 138; [pid] is what
    [::getpid()] returns. *)
Definition isMainThread (pid : Z) (me : CurrentThread.Self)
  : bool * CurrentThread.Self :=
  let '(v, me') := CurrentThread.tid me in
  (v =? pid, me').

(** The only thread of a child process just after [fork]: the kernel
    calls it by the child's process id, its thread-locals are copies of
    those of the forking thread. *)
Definition fork_copy (child_pid : Z) (me : CurrentThread.Self)
  : CurrentThread.Self :=
  CurrentThread.mkSelf child_pid (CurrentThread.tls me).

(** The same thread once the handler registered at line 49 has run. *)
Definition forked_child (child_pid : Z) (me : CurrentThread.Self)
  : CurrentThread.Self :=
  CurrentThread.afterFork (fork_copy child_pid me).

(* ================================================================== *)
(** ** Vocabulary of the proofs: invariants, tables and example data *)
(* ================================================================== *)

(** The number a little-endian digit list stands for. *)
Definition value_le (ds : list Z) : Z :=
  fold_right (fun d acc => d + 10 * acc) 0 ds.

Definition ten_digits (n : Z) : Prop := 0 <= n < 10 ^ 10.

(** What holds of every state the contenders can reach: nobody has
    crashed, the caches are coherent, a free mutex has no holder and no
    thread inside a guard, and a taken mutex has exactly one thread inside
    a guard, named by [holder_] exactly while that thread is between the
    end of [lock()] and the start of [unlock()]. *)
Definition guard_inv (ktid : nat -> Z) (s : MutexSys) : Prop :=
  crashed s = false
  /\ (forall i, CurrentThread.kernel_tid (self (contenders s i)) = ktid i
                /\ CurrentThread.coherent (self (contenders s i)))
  /\ match mutex_ (mtx s) with
     | Unlocked =>
         holder_ (mtx s) = 0 /\ forall i, pc (contenders s i) = Outside
     | Locked =>
         exists i,
           pc (contenders s i) <> Outside
           /\ (forall j, j <> i -> pc (contenders s j) = Outside)
           /\ holder_ (mtx s) =
              match pc (contenders s i) with
              | InScope => ktid i
              | _ => 0
              end
     | _ => False
     end.

(** The spawned thread has executed line 80 / line 82. *)
Definition published (k : CalleePC) : bool :=
  match k with
  | NotSpawned | RunPublish => false
  | _ => true
  end.

Definition signalled (k : CalleePC) : bool :=
  match k with
  | NotSpawned | RunPublish | RunForgetTid | RunCountDown => false
  | _ => true
  end.

(** The events of a whole [catch] block. *)
Definition handler_events (ex : Exn) (nm : string) : list Event :=
  match ex with
  | LuteException what stackTrace =>
      [EvThreadName "crashed";
       EvStderr ("exception caught in Thread " ++ c_str nm ++ newline);
       EvStderr ("reason: " ++ c_str what ++ newline);
       EvStderr ("stack trace: " ++ c_str stackTrace ++ newline);
       EvAbort]
  | StdException what =>
      [EvThreadName "crashed";
       EvStderr ("exception caught in Thread " ++ c_str nm ++ newline);
       EvStderr ("reason: " ++ c_str what ++ newline);
       EvAbort]
  | OtherException =>
      [EvThreadName "crashed";
       EvStderr ("unknown exception caught in Thread " ++ c_str nm
                 ++ newline);
       EvRethrow]
  end.

(** The last statement index a handler can stand at. *)
Definition handler_last (ex : Exn) : nat :=
  match ex with
  | LuteException _ _ => 5
  | StdException _ => 4
  | OtherException => 2
  end.

(** The events behind a thread that stands at [pc]. *)
Definition trace_at (ktid : Z) (nm : string) (pc : CalleePC) : list Event :=
  match pc with
  | NotSpawned | RunPublish => []
  | RunForgetTid | RunCountDown => firstn 1 (prologue ktid nm)
  | RunForgetLatch | RunSetName => firstn 2 (prologue ktid nm)
  | RunPrctl => firstn 3 (prologue ktid nm)
  | RunCall => firstn 4 (prologue ktid nm)
  | RunFinished => prologue ktid nm
  | RunCatch ex n => (prologue ktid nm ++ firstn n (handler_events ex nm))%list
  | RunEscaped ex => (prologue ktid nm ++ handler_events ex nm)%list
  | RunUnwound =>
      (prologue ktid nm ++ handler_events OtherException nm)%list
  | RunTerminated =>
      (prologue ktid nm ++ handler_events OtherException nm ++ [EvAbort])%list
  | RunDelete => (prologue ktid nm ++ [EvThreadName "finished"])%list
  | RunExited =>
      (prologue ktid nm ++ [EvThreadName "finished"; EvDelete])%list
  end.

(** Readings of a trace. *)
Definition stderr_of (tr : list Event) : list string :=
  flat_map (fun ev => match ev with EvStderr s => [s] | _ => [] end) tr.

Definition last_name (tr : list Event) (name0 : string) : string :=
  fold_left (fun acc ev => match ev with EvThreadName s => s | _ => acc end)
            tr name0.

Definition os_of (tr : list Event) : string :=
  fold_left (fun acc ev =>
               match ev with
               | EvPrctl s => substring 0 15 (c_str s)
               | _ => acc
               end)
            tr "".

Definition is_call (ev : Event) : bool :=
  match ev with
  | EvCall => true
  | _ => false
  end.

Definition calls_of (tr : list Event) : nat :=
  List.length (filter is_call tr).

(** [started_] as the caller's position has it. *)
Definition started_at (c : CallerPC) : bool :=
  match c with
  | StartAssert | StartSetStarted | StartDelete | StartPerror | StartAbort =>
      false
  | _ => true
  end.

(** The positions the two threads can hold together. *)
Definition pcs_ok (e : Env) (c : CallerPC) (k : CalleePC) : bool :=
  match k with
  | NotSpawned =>
      match c with
      | StartAssert | StartSetStarted | StartNew | StartCreate => true
      | StartRollback | StartDelete | StartPerror | StartAbort =>
          negb (create_rc e =? 0)
      | _ => false
      end
  | _ =>
      (create_rc e =? 0)
      && match c with
         | StartWait => true
         | StartAssertTid | StartReturned => signalled k
         | _ => false
         end
  end.

(** The transfer record as the two positions have it. *)
Definition heap_at (f : ThreadFunc) (nm : string) (c : CallerPC)
    (k : CalleePC) : option detail.ThreadData :=
  match k with
  | NotSpawned =>
      match c with
      | StartCreate | StartRollback | StartDelete =>
          Some (detail.mkThreadData f nm detail.addr_of_tid_
                                    detail.addr_of_latch_)
      | _ => None
      end
  | RunPublish | RunForgetTid =>
      Some (detail.mkThreadData f nm detail.addr_of_tid_
                                detail.addr_of_latch_)
  | RunCountDown | RunForgetLatch =>
      Some (detail.mkThreadData f nm detail.nullptr detail.addr_of_latch_)
  | RunExited => None
  | _ => Some (detail.mkThreadData f nm detail.nullptr detail.nullptr)
  end.

(** What the caller has written to stderr. *)
Definition caller_stderr (e : Env) (c : CallerPC) : list string :=
  match c with
  | StartAbort =>
      ["Failed in pthread_create" ++ ": " ++ errno_text e ++ newline]
  | _ => []
  end.

(** How the positions fit the user function. *)
Definition outcome_ok (f : ThreadFunc) (k : CalleePC) : Prop :=
  match k with
  | RunFinished | RunDelete | RunExited => f = Returns
  | RunCatch ex n => caught f = Some ex /\ (n <= handler_last ex)%nat
  | RunEscaped ex =>
      ex = OtherException /\ (f = Throws OtherException \/ f = Unwinds)
  | RunTerminated => f = Throws OtherException
  | RunUnwound => f = Unwinds
  | _ => True
  end.

Record start_inv (e : Env) (f : ThreadFunc) (nm : string) (w : World)
  : Prop := mkStartInv {
  inv_func : func_ (thread w) = f;
  inv_name : name_ (thread w) = nm;
  inv_joined : joined_ (thread w) = false;
  inv_started : started_ (thread w) = started_at (caller w);
  inv_pcs : pcs_ok e (caller w) (callee w) = true;
  inv_outcome : outcome_ok f (callee w);
  inv_trace : trace w = trace_at (spawned_tid e) nm (callee w);
  inv_tid : tid_ (thread w)
            = if published (callee w) then spawned_tid e else 0;
  inv_latch : count_ (latch_ (thread w))
              = if signalled (callee w) then 0 else 1;
  inv_calls : calls w = calls_of (trace w);
  inv_heap : heap w = heap_at f nm (caller w) (callee w);
  inv_stderr : stderr w
               = (caller_stderr e (caller w) ++ stderr_of (trace w))%list;
  inv_os : os_name w = os_of (trace w);
  inv_self :
    callee w <> NotSpawned ->
    CurrentThread.kernel_tid (callee_self w) = spawned_tid e
    /\ CurrentThread.t_cachedTid (CurrentThread.tls (callee_self w))
       = (if published (callee w) then spawned_tid e else 0)
    /\ CurrentThread.t_threadName (CurrentThread.tls (callee_self w))
       = last_name (trace w) (initial_name e);
  inv_abort : In EvAbort (trace w) -> aborted w = true;
  inv_aborted :
    aborted w = true ->
    caller w = StartAbort \/ caller w = StartAssertTid
    \/ In EvAbort (trace w);
  inv_returned :
    caller w = StartReturned -> NDEBUG (build e) = false ->
    0 < tid_ (thread w)
}.

(** A Thread as its constructor leaves it, whatever its name. *)
Definition constructed (f : ThreadFunc) (nm : string) : Thread :=
  mkThread false false 0 0 f nm (mkLatch 1).

(** The position after the next statement of the spawned thread. *)
Definition next_callee (f : ThreadFunc) (k : CalleePC) : CalleePC :=
  match k with
  | NotSpawned => NotSpawned
  | RunPublish => RunForgetTid
  | RunForgetTid => RunCountDown
  | RunCountDown => RunForgetLatch
  | RunForgetLatch => RunSetName
  | RunSetName => RunPrctl
  | RunPrctl => RunCall
  | RunCall =>
      match caught f with
      | None => RunFinished
      | Some ex => RunCatch ex 0
      end
  | RunFinished => RunDelete
  | RunCatch OtherException 2%nat => RunEscaped OtherException
  | RunCatch ex n => RunCatch ex (S n)
  | RunEscaped ex =>
      match f with
      | Unwinds => RunUnwound
      | _ => RunTerminated
      end
  | RunTerminated => RunTerminated
  | RunUnwound => RunUnwound
  | RunDelete => RunExited
  | RunExited => RunExited
  end.

(** The positions from which the spawned thread does not move. *)
Definition callee_final (k : CalleePC) : bool :=
  match k with
  | NotSpawned | RunExited | RunTerminated | RunUnwound => true
  | RunCatch OtherException _ => false
  | RunCatch ex n => (handler_last ex <=? n)%nat
  | _ => false
  end.

(** The schedule that lets the caller reach the latch, the new thread
    signal it, and the caller return. *)
Definition handshake : list Actor :=
  ([Caller; Caller; Caller; Caller] ++ repeat Callee 3 ++ [Caller; Caller])%list.

(** An environment for the concrete runs below: a checking build,
    creation succeeds, the kernel calls the new thread 4242. *)
Definition example_env : Env :=
  mkEnv (mkBuild false false) 0 1 4242 32 "unknown"
        "Resource temporarily unavailable" 0.

(** A Thread that was started and joined. *)
Definition joined_world : World :=
  mkWorld (mkThread true true 1 4242 Returns "Thread0" (mkLatch 0))
          None (JoinReturned 0) RunExited
          (CurrentThread.fresh 4242 32 "finished") "Thread0"
          1 [] false [].


Definition trampoline_length (f : ThreadFunc) : nat :=
  match f with
  | Returns => 9
  | Throws (LuteException _ _) => 12
  | Throws (StdException _) => 11
  | Throws OtherException => 11
  | Unwinds => 11
  end.

(** [countDown()] among the trampoline's events. *)
Definition is_countdown (ev : Event) : bool :=
  match ev with
  | EvCountDown => true
  | _ => false
  end.

(** *** The caller inside [join()] *)

(** The world with the caller put back to where [start()] returned and
    [joined_] cleared: what the new thread can see of a world does not
    depend on where the caller stands in [join()]. *)
Definition as_start (w : World) : World :=
  set_caller StartReturned (set_thread (set_joined_ false (thread w)) w).

(** [joined_] as the caller's position in [join()] has it. *)
Definition joined_at (c : CallerPC) : bool :=
  match c with
  | JoinPthreadJoin | JoinReturned _ => true
  | _ => false
  end.

Definition in_join (c : CallerPC) : bool :=
  match c with
  | JoinAssertStarted | JoinAssertNotJoined | JoinSetJoined
  | JoinPthreadJoin | JoinReturned _ => true
  | _ => false
  end.

(** What every interleaving keeps once [join()] was entered after
    [start()] had returned. *)
Definition join_inv (e : Env) (f : ThreadFunc) (nm : string) (w : World)
  : Prop :=
  start_inv e f nm (as_start w)
  /\ in_join (caller w) = true
  /\ joined_ (thread w) = joined_at (caller w)
  /\ (forall rc, caller w = JoinReturned rc ->
        rc = join_rc e /\ (callee w = RunExited \/ callee w = RunUnwound))
  /\ (aborted w = true -> In EvAbort (trace w)).

(* ================================================================== *)
(** ** Facts about the formatting functions *)
(* ================================================================== *)

Module StdioFacts.
Import Stdio.

Lemma digits_le_length fuel n : (List.length (digits_le fuel n) <= fuel)%nat.
Proof.
  revert n; induction fuel as [|f IH]; intros n; simpl; [lia|].
  destruct (n / 10 =? 0); simpl; [lia|].
  specialize (IH (n / 10)); lia.
Qed.

Lemma digits_le_range fuel n :
  0 <= n -> Forall (fun d => 0 <= d <= 9) (digits_le fuel n).
Proof.
  revert n; induction fuel as [|f IH]; intros n Hn; simpl; [constructor|].
  constructor.
  - pose proof (Z.mod_pos_bound n 10); lia.
  - destruct (n / 10 =? 0); [constructor|].
    apply IH. apply Z.div_pos; lia.
Qed.

Lemma digits_le_value fuel n :
  0 <= n < 10 ^ Z.of_nat fuel -> value_le (digits_le fuel n) = n.
Proof.
  revert n; induction fuel as [|f IH]; intros n Hn.
  - simpl in *. lia.
  - cbn [digits_le value_le fold_right].
    pose proof (Z.div_mod n 10 ltac:(lia)) as Hdm.
    destruct (Z.eqb_spec (n / 10) 0) as [E|E].
    + simpl. lia.
    + fold (value_le (digits_le f (n / 10))).
      rewrite IH; [lia|].
      split; [apply Z.div_pos; lia|].
      apply Z.div_lt_upper_bound; [lia|].
      replace (Z.of_nat (S f)) with (1 + Z.of_nat f) in Hn by lia.
      rewrite Z.pow_add_r in Hn by lia. lia.
Qed.

Lemma digit_inj a b :
  0 <= a <= 9 -> 0 <= b <= 9 -> digit a = digit b -> a = b.
Proof.
  intros Ha Hb H. unfold digit in H.
  apply (f_equal nat_of_ascii) in H.
  rewrite !nat_ascii_embedding in H by lia. lia.
Qed.

Lemma map_digit_inj l1 l2 :
  Forall (fun d => 0 <= d <= 9) l1 -> Forall (fun d => 0 <= d <= 9) l2 ->
  map digit l1 = map digit l2 -> l1 = l2.
Proof.
  intros H1; revert l2; induction H1 as [|a l1 Ha _ IH];
    intros l2 H2 E; destruct H2 as [|b l2 Hb H2]; simpl in E; try discriminate.
  - reflexivity.
  - injection E as E1 E2. f_equal; [now apply digit_inj | now apply IH].
Qed.

Lemma string_of_list_ascii_inj l1 l2 :
  string_of_list_ascii l1 = string_of_list_ascii l2 -> l1 = l2.
Proof.
  intros H. apply (f_equal list_ascii_of_string) in H.
  now rewrite !list_ascii_of_string_of_list_ascii in H.
Qed.

Lemma string_of_list_ascii_length l :
  String.length (string_of_list_ascii l) = List.length l.
Proof. induction l; simpl; congruence. Qed.

Lemma utoa_inj a b : ten_digits a -> ten_digits b -> utoa a = utoa b -> a = b.
Proof.
  unfold ten_digits, utoa. intros Ha Hb H.
  apply string_of_list_ascii_inj in H.
  apply map_digit_inj in H.
  2,3: apply Forall_rev, digits_le_range; lia.
  apply (f_equal (@rev Z)) in H. rewrite !rev_involutive in H.
  rewrite <- (digits_le_value 10 a), <- (digits_le_value 10 b) by (simpl; lia).
  now rewrite H.
Qed.

Lemma utoa_length n : (String.length (utoa n) <= 10)%nat.
Proof.
  unfold utoa.
  rewrite string_of_list_ascii_length, length_map, length_rev.
  apply digits_le_length.
Qed.

(** No digit is the minus sign. *)
Lemma utoa_no_minus n s : 0 <= n -> utoa n <> String "-" s.
Proof.
  unfold utoa. intros Hn H.
  apply (f_equal list_ascii_of_string) in H.
  rewrite list_ascii_of_string_of_list_ascii in H.
  cbn [list_ascii_of_string] in H.
  assert (Hin : In "-"%char (map digit (rev (digits_le 10 n)))).
  { rewrite H. now left. }
  apply in_map_iff in Hin. destruct Hin as (d & Hd & Hin).
  apply in_rev in Hin.
  pose proof (digits_le_range 10 n Hn) as HF.
  rewrite Forall_forall in HF. specialize (HF d Hin).
  unfold digit in Hd. apply (f_equal nat_of_ascii) in Hd.
  rewrite nat_ascii_embedding in Hd by lia.
  change (nat_of_ascii "-") with 45%nat in Hd. lia.
Qed.

Lemma int32_ten_digits v : int32 v -> ten_digits (Z.abs v).
Proof. unfold int32, INT32_MIN, INT32_MAX, ten_digits. lia. Qed.

Lemma fmt_d_inj a b : int32 a -> int32 b -> fmt_d a = fmt_d b -> a = b.
Proof.
  intros Ha Hb. apply int32_ten_digits in Ha, Hb. unfold ten_digits in *.
  unfold fmt_d.
  destruct (Z.ltb_spec a 0) as [La|La], (Z.ltb_spec b 0) as [Lb|Lb]; intros E.
  - injection E as E. apply utoa_inj in E; unfold ten_digits; lia.
  - symmetry in E. apply utoa_no_minus in E; [contradiction | lia].
  - apply utoa_no_minus in E; [contradiction | lia].
  - apply utoa_inj in E; unfold ten_digits; lia.
Qed.

Lemma fmt_d_length v : (String.length (fmt_d v) <= 11)%nat.
Proof.
  unfold fmt_d. destruct (v <? 0); simpl.
  - pose proof (utoa_length (- v)); lia.
  - pose proof (utoa_length v); lia.
Qed.

Lemma substring_all n s : (String.length s <= n)%nat -> substring 0 n s = s.
Proof.
  revert n; induction s as [|c s IH]; intros [|n] H; simpl in *;
    try reflexivity; try lia.
  f_equal. apply IH. lia.
Qed.

Lemma append_length s1 s2 :
  String.length (s1 ++ s2) = (String.length s1 + String.length s2)%nat.
Proof. induction s1; simpl; congruence. Qed.

Lemma append_inj_l p s1 s2 : p ++ s1 = p ++ s2 -> s1 = s2.
Proof. induction p; simpl; intros H; [assumption|]. injection H as H. auto. Qed.

End StdioFacts.

(* ================================================================== *)
(** ** The counter behind the default names *)
(* ================================================================== *)

Section Counter.
Import Stdio StdioFacts.

Lemma wrap32_int32 z : int32 (wrap32 z).
Proof.
  unfold int32, wrap32, INT32_MIN, INT32_MAX.
  pose proof (Z.mod_pos_bound (z + 2 ^ 31) (2 ^ 32) ltac:(lia)). lia.
Qed.

Lemma wrap32_id z : int32 z -> wrap32 z = z.
Proof.
  unfold int32, wrap32, INT32_MIN, INT32_MAX. intros H.
  rewrite Z.mod_small; lia.
Qed.

Lemma wrap32_add a b : wrap32 (wrap32 a + b) = wrap32 (a + b).
Proof.
  unfold wrap32.
  replace ((a + 2 ^ 31) mod 2 ^ 32 - 2 ^ 31 + b + 2 ^ 31)
    with ((a + 2 ^ 31) mod 2 ^ 32 + b) by lia.
  replace (a + b + 2 ^ 31) with ((a + 2 ^ 31) + b) by lia.
  now rewrite Zplus_mod_idemp_l.
Qed.

(** Two values less than [2^32] apart do not wrap to the same [int]. *)
Lemma wrap32_apart a b : 0 < b - a < 2 ^ 32 -> wrap32 a <> wrap32 b.
Proof.
  unfold wrap32. intros Hd E.
  pose proof (Z.div_mod (a + 2 ^ 31) (2 ^ 32) ltac:(lia)) as Ha.
  pose proof (Z.div_mod (b + 2 ^ 31) (2 ^ 32) ltac:(lia)) as Hb.
  change (2 ^ 32) with 4294967296 in *. change (2 ^ 31) with 2147483648 in *.
  lia.
Qed.

(** The buffer of 32 bytes holds every default name whole. *)
Lemma default_name_fits num :
  fst (snprintf 32 ("Thread" ++ fmt_d num)) = "Thread" ++ fmt_d num.
Proof.
  unfold snprintf; cbn [fst]. apply substring_all.
  rewrite append_length. pose proof (fmt_d_length num).
  change (String.length "Thread") with 6%nat. lia.
Qed.

Lemma Thread_ctor_counter c f name :
  fst (Thread_ctor c f name) = wrap32 (c + 1).
Proof.
  unfold Thread_ctor, setDefaultName, fetch_add; cbn [name_].
  destruct (empty name); reflexivity.
Qed.

Lemma Thread_ctor_name c f name :
  name_ (snd (Thread_ctor c f name)) =
  if empty name then "Thread" ++ fmt_d c else name.
Proof.
  unfold Thread_ctor, setDefaultName, fetch_add; cbn [name_].
  destruct (empty name) eqn:E; [|reflexivity].
  pose proof (default_name_fits c) as Hfit.
  destruct (snprintf 32 ("Thread" ++ fmt_d c)) as [buf n].
  cbn in *. assumption.
Qed.

Lemma construct_all_cons c f n rest :
  construct_all c f (n :: rest) =
  (fst (construct_all (fst (Thread_ctor c f n)) f rest),
   snd (Thread_ctor c f n)
     :: snd (construct_all (fst (Thread_ctor c f n)) f rest)).
Proof.
  cbn [construct_all].
  destruct (Thread_ctor c f n) as [c1 t]; cbn [fst snd].
  destruct (construct_all c1 f rest) as [c2 ts]; reflexivity.
Qed.

Lemma construct_all_counter f names : forall c,
  int32 c ->
  fst (construct_all c f names) = wrap32 (c + Z.of_nat (List.length names)).
Proof.
  induction names as [|n rest IH]; intros c Hc.
  - cbn. rewrite Z.add_0_r. symmetry. now apply wrap32_id.
  - rewrite construct_all_cons; cbn [fst].
    rewrite Thread_ctor_counter, IH by apply wrap32_int32.
    rewrite wrap32_add. f_equal. cbn [List.length]. lia.
Qed.

Lemma construct_all_length f names : forall c,
  List.length (snd (construct_all c f names)) = List.length names.
Proof.
  induction names as [|n rest IH]; intros c; [reflexivity|].
  rewrite construct_all_cons; cbn [snd List.length]. now rewrite IH.
Qed.

(** The [i]-th Thread constructed keeps a given name, and otherwise is
    named after the counter as it stood before its own construction. *)
Lemma construct_all_nth f names : forall c i n,
  int32 c ->
  nth_error names i = Some n ->
  nth_error (map name_ (snd (construct_all c f names))) i =
  Some (if empty n then "Thread" ++ fmt_d (wrap32 (c + Z.of_nat i)) else n).
Proof.
  induction names as [|n0 rest IH]; intros c i n Hc Hn.
  - destruct i; discriminate.
  - rewrite construct_all_cons; cbn [snd map].
    destruct i as [|i].
    + cbn in Hn. injection Hn as ->. cbn [nth_error].
      rewrite Thread_ctor_name, Z.add_0_r, wrap32_id by assumption.
      reflexivity.
    + cbn [nth_error] in *.
      rewrite Thread_ctor_counter.
      rewrite (IH _ i n (wrap32_int32 _) Hn), wrap32_add.
      replace (c + 1 + Z.of_nat i) with (c + Z.of_nat (S i)) by lia.
      reflexivity.
Qed.

Lemma default_name_inj a b :
  int32 a -> int32 b -> "Thread" ++ fmt_d a = "Thread" ++ fmt_d b -> a = b.
Proof.
  intros Ha Hb H. apply append_inj_l in H. now apply fmt_d_inj.
Qed.

(** Two unnamed constructions of one run get different names. *)
Lemma construct_all_default_distinct f names c i j s t :
  int32 c ->
  Z.of_nat (List.length names) <= 2 ^ 32 ->
  (i < j)%nat ->
  nth_error names i = Some "" -> nth_error names j = Some "" ->
  nth_error (map name_ (snd (construct_all c f names))) i = Some s ->
  nth_error (map name_ (snd (construct_all c f names))) j = Some t ->
  s <> t.
Proof.
  intros Hc Hlen Hij Hi Hj Hs Ht E.
  rewrite (construct_all_nth f names c i "" Hc Hi) in Hs.
  rewrite (construct_all_nth f names c j "" Hc Hj) in Ht.
  cbn [empty] in Hs, Ht. injection Hs as <-. injection Ht as <-.
  apply default_name_inj in E; try apply wrap32_int32.
  assert (Hjl : (j < List.length names)%nat).
  { apply nth_error_Some. congruence. }
  revert E. apply wrap32_apart. lia.
Qed.

End Counter.

(* ================================================================== *)
(** ** The identity cache *)
(* ================================================================== *)

Section Identity.
Import CurrentThread.

Lemma cacheTid_cached me :
  t_cachedTid (tls (cacheTid me)) =
  if t_cachedTid (tls me) =? 0 then kernel_tid me else t_cachedTid (tls me).
Proof.
  unfold cacheTid. destruct (t_cachedTid (tls me) =? 0) eqn:E; reflexivity.
Qed.

Lemma cacheTid_kernel_tid me : kernel_tid (cacheTid me) = kernel_tid me.
Proof.
  unfold cacheTid. destruct (t_cachedTid (tls me) =? 0); reflexivity.
Qed.

Lemma cacheTid_threadName me :
  t_threadName (tls (cacheTid me)) = t_threadName (tls me).
Proof.
  unfold cacheTid. destruct (t_cachedTid (tls me) =? 0); reflexivity.
Qed.

(** What [tid()] returns. *)
Lemma tid_value me :
  fst (tid me) =
  if t_cachedTid (tls me) =? 0 then kernel_tid me else t_cachedTid (tls me).
Proof.
  unfold tid; cbn [fst].
  destruct (t_cachedTid (tls me) =? 0) eqn:E; [|reflexivity].
  rewrite cacheTid_cached, E. reflexivity.
Qed.

Lemma tid_cached me : t_cachedTid (tls (snd (tid me))) = fst (tid me).
Proof. reflexivity. Qed.

Lemma tid_kernel_tid me : kernel_tid (snd (tid me)) = kernel_tid me.
Proof.
  unfold tid; cbn [snd].
  destruct (t_cachedTid (tls me) =? 0); [apply cacheTid_kernel_tid | reflexivity].
Qed.

Lemma tid_threadName me :
  t_threadName (tls (snd (tid me))) = t_threadName (tls me).
Proof.
  unfold tid; cbn [snd].
  destruct (t_cachedTid (tls me) =? 0); [apply cacheTid_threadName | reflexivity].
Qed.

(** With a coherent cache [tid()] is the kernel's id, and stays so. *)
Lemma tid_coherent me : coherent me -> fst (tid me) = kernel_tid me.
Proof.
  intros [H|H]; rewrite tid_value, H.
  - reflexivity.
  - destruct (Z.eqb_spec (kernel_tid me) 0); congruence.
Qed.

Lemma tid_keeps_coherent me : coherent me -> coherent (snd (tid me)).
Proof.
  intros H. right. rewrite tid_cached, tid_kernel_tid. now apply tid_coherent.
Qed.

Lemma fresh_coherent k n s : coherent (fresh k n s).
Proof. now left. Qed.

End Identity.

(* ================================================================== *)
(** ** MutexLock: one thread *)
(* ================================================================== *)

Lemma MCHECK_passes_0 b : MCHECK_passes b 0 = true.
Proof.
  unfold MCHECK_passes, assert_passes.
  destruct (CHECK_PTHREAD_RETURN_VALUE b); [reflexivity|].
  apply orb_true_r.
Qed.

(** In a build that checks, only the code 0 gets past [MCHECK]. *)
Lemma MCHECK_passes_debug b rc :
  NDEBUG b = false -> MCHECK_passes b rc = true -> rc = 0.
Proof.
  unfold MCHECK_passes, assert_passes. intros ->.
  destruct (CHECK_PTHREAD_RETURN_VALUE b); cbn; intros H; now apply Z.eqb_eq.
Qed.

Lemma MutexLock_ctor_done b : MutexLock_ctor b = Done (mkMutexLock Unlocked 0).
Proof. unfold MutexLock_ctor; cbn. now rewrite MCHECK_passes_0. Qed.

Lemma lock_acquire_unlocked b m :
  mutex_ m = Unlocked -> lock_acquire b m = Done (mkMutexLock Locked (holder_ m)).
Proof.
  intros H. unfold lock_acquire. rewrite H; cbn.
  now rewrite MCHECK_passes_0.
Qed.

Lemma lock_acquire_locked b m : mutex_ m = Locked -> lock_acquire b m = Blocked.
Proof. intros H. unfold lock_acquire. now rewrite H. Qed.

Lemma unlock_release_locked b m :
  mutex_ m = Locked ->
  unlock_release b m = Done (mkMutexLock Unlocked (holder_ m)).
Proof.
  intros H. unfold unlock_release. rewrite H; cbn.
  now rewrite MCHECK_passes_0.
Qed.

Lemma assignHolder_holder me m :
  holder_ (snd (assignHolder me m)) = fst (CurrentThread.tid me).
Proof.
  unfold assignHolder. destruct (CurrentThread.tid me); reflexivity.
Qed.

Lemma assignHolder_mutex me m : mutex_ (snd (assignHolder me m)) = mutex_ m.
Proof.
  unfold assignHolder. destruct (CurrentThread.tid me); reflexivity.
Qed.

Lemma assignHolder_self me m :
  fst (assignHolder me m) = snd (CurrentThread.tid me).
Proof.
  unfold assignHolder. destruct (CurrentThread.tid me); reflexivity.
Qed.

(* ================================================================== *)
(** ** MutexLock: threads racing through MutexLockGuard *)
(* ================================================================== *)

Lemma guard_init_inv ktid n s0 : guard_inv ktid (guard_init ktid n s0).
Proof.
  unfold guard_inv, guard_init; cbn. repeat split.
  apply fresh_coherent.
Qed.

Lemma update_same f i c : update f i c i = c.
Proof. unfold update. now rewrite Nat.eqb_refl. Qed.

Lemma update_other f i c j : j <> i -> update f i c j = f j.
Proof. unfold update. intros H. apply Nat.eqb_neq in H. now rewrite H. Qed.

Lemma guard_step_inv b ktid i s s' :
  guard_inv ktid s -> guard_step b i s = Some s' -> guard_inv ktid s'.
Proof.
  intros (Hc & Hself & Hm) Hstep.
  unfold guard_step in Hstep. rewrite Hc in Hstep.
  destruct (pc (contenders s i)) eqn:Hpc.
  - (* line 148 *)
    destruct (mutex_ (mtx s)) eqn:Hmu; try contradiction.
    + destruct Hm as [Hh Hall].
      rewrite (lock_acquire_unlocked b _ Hmu) in Hstep.
      injection Hstep as <-. unfold guard_inv; cbn. split; [reflexivity|].
      split.
      * intros j. destruct (Nat.eq_dec j i) as [->|Hne].
        -- rewrite update_same; cbn. apply Hself.
        -- rewrite update_other by assumption. apply Hself.
      * exists i. rewrite update_same; cbn. repeat split; try discriminate.
        -- intros j Hne. rewrite update_other by assumption. apply Hall.
        -- assumption.
    + rewrite (lock_acquire_locked b _ Hmu) in Hstep. discriminate.
  - (* line 149 *)
    destruct (mutex_ (mtx s)) eqn:Hmu; try contradiction.
    + destruct Hm as [_ Hall]. rewrite Hall in Hpc. discriminate.
    + destruct Hm as (k & Hk & Hothers & Hh).
      assert (k = i) as ->.
      { destruct (Nat.eq_dec i k) as [->|Hne]; [reflexivity|].
        rewrite (Hothers i Hne) in Hpc. discriminate. }
      unfold lock_assign in Hstep.
      pose proof (assignHolder_holder (self (contenders s i)) (mtx s)) as Hah.
      pose proof (assignHolder_mutex (self (contenders s i)) (mtx s)) as Ham.
      pose proof (assignHolder_self (self (contenders s i)) (mtx s)) as Has.
      destruct (assignHolder (self (contenders s i)) (mtx s)) as [me' m'].
      cbn [fst snd] in *. injection Hstep as <-.
      destruct (Hself i) as [Hkt Hco].
      unfold guard_inv; cbn. split; [reflexivity|]. split.
      * intros j. destruct (Nat.eq_dec j i) as [->|Hne].
        -- rewrite update_same; cbn. subst me'.
           rewrite tid_kernel_tid. split; [assumption|].
           now apply tid_keeps_coherent.
        -- rewrite update_other by assumption. apply Hself.
      * rewrite Ham, Hmu. exists i. rewrite update_same; cbn.
        repeat split; try discriminate.
        -- intros j Hne. rewrite update_other by assumption. now apply Hothers.
        -- rewrite Hah, tid_coherent by assumption. assumption.
  - (* line 158 *)
    injection Hstep as <-.
    destruct (mutex_ (mtx s)) eqn:Hmu; try contradiction.
    + destruct Hm as [_ Hall]. rewrite Hall in Hpc. discriminate.
    + destruct Hm as (k & Hk & Hothers & Hh).
      assert (k = i) as ->.
      { destruct (Nat.eq_dec i k) as [->|Hne]; [reflexivity|].
        rewrite (Hothers i Hne) in Hpc. discriminate. }
      unfold guard_inv; cbn. split; [reflexivity|]. split.
      * intros j. destruct (Nat.eq_dec j i) as [->|Hne].
        -- rewrite update_same; cbn. apply Hself.
        -- rewrite update_other by assumption. apply Hself.
      * rewrite Hmu. exists i. rewrite update_same; cbn.
        repeat split; try discriminate.
        intros j Hne. rewrite update_other by assumption. now apply Hothers.
  - (* line 159 *)
    destruct (mutex_ (mtx s)) eqn:Hmu; try contradiction.
    + destruct Hm as [_ Hall]. rewrite Hall in Hpc. discriminate.
    + destruct Hm as (k & Hk & Hothers & Hh).
      assert (k = i) as ->.
      { destruct (Nat.eq_dec i k) as [->|Hne]; [reflexivity|].
        rewrite (Hothers i Hne) in Hpc. discriminate. }
      rewrite Hpc in Hh.
      rewrite (unlock_release_locked b _ Hmu) in Hstep.
      injection Hstep as <-.
      unfold guard_inv; cbn. split; [reflexivity|]. split.
      * intros j. destruct (Nat.eq_dec j i) as [->|Hne].
        -- rewrite update_same; cbn. apply Hself.
        -- rewrite update_other by assumption. apply Hself.
      * split; [assumption|].
        intros j. destruct (Nat.eq_dec j i) as [->|Hne].
        -- now rewrite update_same.
        -- rewrite update_other by assumption. now apply Hothers.
Qed.

Lemma guard_run_inv b ktid sched : forall s,
  guard_inv ktid s -> guard_inv ktid (guard_run b sched s).
Proof.
  induction sched as [|i rest IH]; intros s Hs; cbn; [assumption|].
  destruct (guard_step b i s) as [s'|] eqn:E.
  - apply IH. eapply guard_step_inv; eassumption.
  - now apply IH.
Qed.

(** One step of any contender, seen from the mutex: the pthread mutex is
    released only by a thread whose [unlock()] has already cleared the
    holder, and the holder is set only by the thread whose [lock()] has
    already taken the pthread mutex. *)
Lemma guard_step_order b ktid i s s' :
  guard_inv ktid s -> guard_step b i s = Some s' ->
  (mutex_ (mtx s) = Locked -> mutex_ (mtx s') = Unlocked ->
   pc (contenders s i) = Cleared /\ holder_ (mtx s) = 0 /\ holder_ (mtx s') = 0)
  /\ (holder_ (mtx s') <> 0 -> holder_ (mtx s') <> holder_ (mtx s) ->
      pc (contenders s i) = Acquired /\ mutex_ (mtx s) = Locked
      /\ mutex_ (mtx s') = Locked /\ holder_ (mtx s') = ktid i).
Proof.
  intros Hinv Hstep.
  pose proof (guard_step_inv b ktid i s s' Hinv Hstep) as Hinv'.
  destruct Hinv as (Hc & Hself & Hm).
  unfold guard_step in Hstep. rewrite Hc in Hstep.
  destruct (pc (contenders s i)) eqn:Hpc.
  - destruct (mutex_ (mtx s)) eqn:Hmu; try contradiction.
    + rewrite (lock_acquire_unlocked b _ Hmu) in Hstep.
      injection Hstep as <-; cbn. destruct Hm as [Hh _].
      split; [discriminate | congruence].
    + rewrite (lock_acquire_locked b _ Hmu) in Hstep. discriminate.
  - destruct (mutex_ (mtx s)) eqn:Hmu; try contradiction.
    + destruct Hm as [_ Hall]. rewrite Hall in Hpc. discriminate.
    + unfold lock_assign in Hstep.
      pose proof (assignHolder_holder (self (contenders s i)) (mtx s)) as Hah.
      pose proof (assignHolder_mutex (self (contenders s i)) (mtx s)) as Ham.
      destruct (assignHolder (self (contenders s i)) (mtx s)) as [me' m'].
      cbn [fst snd] in *. injection Hstep as <-; cbn.
      rewrite Ham, Hmu. split; [discriminate|].
      intros _ _. repeat split.
      destruct (Hself i) as [Hkt Hco].
      rewrite Hah, tid_coherent by assumption. assumption.
  - injection Hstep as <-; cbn.
    split.
    + intros H1 H2. unfold unlock_clear, unassignHolder in H2; cbn in H2.
      congruence.
    + intros H1. contradiction H1. reflexivity.
  - destruct (mutex_ (mtx s)) eqn:Hmu; try contradiction.
    + destruct Hm as [_ Hall]. rewrite Hall in Hpc. discriminate.
    + destruct Hm as (k & Hk & Hothers & Hh).
      assert (k = i) as ->.
      { destruct (Nat.eq_dec i k) as [->|Hne]; [reflexivity|].
        rewrite (Hothers i Hne) in Hpc. discriminate. }
      rewrite Hpc in Hh.
      rewrite (unlock_release_locked b _ Hmu) in Hstep.
      injection Hstep as <-; cbn. split.
      * intros _ _. repeat split; assumption.
      * intros H1. contradiction.
Qed.

Lemma guard_inv_inside ktid s i :
  guard_inv ktid s -> pc (contenders s i) <> Outside ->
  mutex_ (mtx s) = Locked
  /\ (forall j, j <> i -> pc (contenders s j) = Outside)
  /\ holder_ (mtx s) = match pc (contenders s i) with
                       | InScope => ktid i
                       | _ => 0
                       end.
Proof.
  intros (_ & _ & Hm) Hi.
  destruct (mutex_ (mtx s)); try contradiction.
  - destruct Hm as [_ Hall]. now rewrite Hall in Hi.
  - destruct Hm as (k & Hk & Hothers & Hh).
    assert (k = i) as ->.
    { destruct (Nat.eq_dec i k) as [->|Hne]; [reflexivity|].
      now rewrite (Hothers i Hne) in Hi. }
    repeat split; assumption.
Qed.

(** A thread can always take its next statement, except the first one
    while the mutex is taken. *)
Lemma guard_step_moves b ktid s i :
  guard_inv ktid s ->
  pc (contenders s i) <> Outside \/ mutex_ (mtx s) = Unlocked ->
  exists s',
    guard_step b i s = Some s'
    /\ pc (contenders s' i) = next_guard_pc (pc (contenders s i))
    /\ (pc (contenders s i) = Cleared -> mutex_ (mtx s') = Unlocked).
Proof.
  intros Hinv Hor.
  assert (Hc : crashed s = false) by apply Hinv.
  unfold guard_step. rewrite Hc.
  destruct (pc (contenders s i)) eqn:Hpc.
  - destruct Hor as [Hor|Hu]; [contradiction|].
    rewrite (lock_acquire_unlocked b _ Hu). eexists. split; [reflexivity|].
    cbn. rewrite update_same. split; [reflexivity | discriminate].
  - unfold lock_assign.
    destruct (assignHolder (self (contenders s i)) (mtx s)) as [me' m'].
    eexists. split; [reflexivity|]. cbn. rewrite update_same.
    split; [reflexivity | discriminate].
  - eexists. split; [reflexivity|]. cbn. rewrite update_same.
    split; [reflexivity | discriminate].
  - destruct (guard_inv_inside ktid s i Hinv) as (Hl & _ & _);
      [rewrite Hpc; discriminate|].
    rewrite (unlock_release_locked b _ Hl). eexists. split; [reflexivity|].
    cbn. rewrite update_same. repeat split.
Qed.

(** A step that does not crash is the statement of [lock()] or
    [unlock()] its thread stands at, applied to the mutex. *)
Lemma guard_step_statement b i s s' :
  guard_step b i s = Some s' -> crashed s' = false ->
  match pc (contenders s i) with
  | Outside => lock_acquire b (mtx s) = Done (mtx s')
  | Acquired =>
      lock_assign (self (contenders s i)) (mtx s)
      = (self (contenders s' i), mtx s')
  | InScope => mtx s' = unlock_clear (mtx s)
  | Cleared => unlock_release b (mtx s) = Done (mtx s')
  end.
Proof.
  unfold guard_step. destruct (crashed s); [discriminate|].
  destruct (pc (contenders s i)).
  - destruct (lock_acquire b (mtx s)) as [m'| |m']; try discriminate;
      intros H Hc; injection H as <-; [reflexivity | discriminate Hc].
  - destruct (lock_assign (self (contenders s i)) (mtx s)) as [me' m'].
    intros H _. injection H as <-. cbn. now rewrite update_same.
  - intros H _. injection H as <-. reflexivity.
  - destruct (unlock_release b (mtx s)) as [m'| |m']; try discriminate;
      intros H Hc; injection H as <-; [reflexivity | discriminate Hc].
Qed.

(** The four statements of a guarded block, taken by thread [i] from a
    state in which the mutex is free: line 148 takes the pthread mutex
    and leaves [holder_] at 0, line 149 then names [i] as holder, line
    158 clears [holder_] with the pthread mutex still taken, and line 159
    then releases it.  As long as [i] is inside, no other thread moves. *)
Lemma guard_block_statements b ktid s i :
  guard_inv ktid s -> mutex_ (mtx s) = Unlocked ->
  exists s1 s2 s3 s4,
    guard_step b i s = Some s1 /\ guard_step b i s1 = Some s2
    /\ guard_step b i s2 = Some s3 /\ guard_step b i s3 = Some s4
    /\ (pc (contenders s1 i) = Acquired
        /\ mutex_ (mtx s1) = Locked /\ holder_ (mtx s1) = 0)
    /\ (pc (contenders s2 i) = InScope
        /\ mutex_ (mtx s2) = Locked /\ holder_ (mtx s2) = ktid i)
    /\ (pc (contenders s3 i) = Cleared
        /\ mutex_ (mtx s3) = Locked /\ holder_ (mtx s3) = 0)
    /\ (pc (contenders s4 i) = Outside
        /\ mutex_ (mtx s4) = Unlocked /\ holder_ (mtx s4) = 0)
    /\ (lock_acquire b (mtx s) = Done (mtx s1)
        /\ lock_assign (self (contenders s1 i)) (mtx s1)
           = (self (contenders s2 i), mtx s2)
        /\ mtx s3 = unlock_clear (mtx s2)
        /\ unlock_release b (mtx s3) = Done (mtx s4))
    /\ (forall j, j <> i ->
          guard_step b j s1 = None /\ guard_step b j s2 = None
          /\ guard_step b j s3 = None).
Proof.
  intros I0 Hu.
  assert (Hout : pc (contenders s i) = Outside).
  { destruct I0 as (_ & _ & Hm). rewrite Hu in Hm. apply Hm. }
  assert (Hstep : forall s0 p, guard_inv ktid s0 ->
            pc (contenders s0 i) = p -> p <> Outside ->
            exists s', guard_step b i s0 = Some s' /\ guard_inv ktid s'
                       /\ pc (contenders s' i) = next_guard_pc p
                       /\ (p = Cleared -> mutex_ (mtx s') = Unlocked)).
  { intros s0 p J Hp Hne.
    destruct (guard_step_moves b ktid s0 i J) as (s' & H1 & H2 & H3).
    { left. congruence. }
    exists s'. rewrite Hp in H2, H3.
    split; [exact H1|]. split; [eapply guard_step_inv; eassumption|].
    split; [exact H2 | exact H3]. }
  assert (Hin : forall s0 p, guard_inv ktid s0 ->
            pc (contenders s0 i) = p -> p <> Outside ->
            mutex_ (mtx s0) = Locked
            /\ holder_ (mtx s0) = match p with InScope => ktid i | _ => 0 end
            /\ forall j, j <> i -> guard_step b j s0 = None).
  { intros s0 p J Hp Hne.
    destruct (guard_inv_inside ktid s0 i J) as (Hl & Hothers & Hh);
      [congruence|].
    rewrite Hp in Hh. split; [assumption|]. split; [assumption|].
    intros j Hj. unfold guard_step.
    destruct (crashed s0); [reflexivity|].
    rewrite (Hothers j Hj). now rewrite lock_acquire_locked. }
  destruct (guard_step_moves b ktid s i I0 (or_intror Hu))
    as (s1 & E1 & P1 & _).
  rewrite Hout in P1. cbn in P1.
  pose proof (guard_step_inv b ktid i s s1 I0 E1) as I1.
  destruct (Hstep s1 Acquired I1 P1 ltac:(discriminate))
    as (s2 & E2 & I2 & P2 & _). cbn in P2.
  destruct (Hstep s2 InScope I2 P2 ltac:(discriminate))
    as (s3 & E3 & I3 & P3 & _). cbn in P3.
  destruct (Hstep s3 Cleared I3 P3 ltac:(discriminate))
    as (s4 & E4 & I4 & P4 & R4). cbn in P4. specialize (R4 eq_refl).
  destruct (Hin s1 Acquired I1 P1 ltac:(discriminate)) as (L1 & H1 & B1).
  destruct (Hin s2 InScope I2 P2 ltac:(discriminate)) as (L2 & H2 & B2).
  destruct (Hin s3 Cleared I3 P3 ltac:(discriminate)) as (L3 & H3 & B3).
  assert (H4 : holder_ (mtx s4) = 0).
  { destruct I4 as (_ & _ & Hm). rewrite R4 in Hm. apply Hm. }
  exists s1, s2, s3, s4.
  split; [exact E1|]. split; [exact E2|]. split; [exact E3|].
  split; [exact E4|].
  split; [repeat split; assumption|]. split; [repeat split; assumption|].
  split; [repeat split; assumption|]. split; [repeat split; assumption|].
  split.
  - pose proof (guard_step_statement b i s s1 E1 (proj1 I1)) as S1.
    pose proof (guard_step_statement b i s1 s2 E2 (proj1 I2)) as S2.
    pose proof (guard_step_statement b i s2 s3 E3 (proj1 I3)) as S3.
    pose proof (guard_step_statement b i s3 s4 E4 (proj1 I4)) as S4.
    rewrite Hout in S1. rewrite P1 in S2. rewrite P2 in S3.
    rewrite P3 in S4.
    split; [exact S1|]. split; [exact S2|]. split; [exact S3 | exact S4].
  - intros j Hj. repeat split; [apply B1 | apply B2 | apply B3]; exact Hj.
Qed.

(** C2.  [unlock()] clears [holder_] and only then releases the pthread
    mutex; [lock()] takes the pthread mutex and only then sets [holder_].
    One after the other: releasing a held mutex leaves it free with no
    holder, and a following [lock()] by any thread returns with that
    thread's identity as holder, while [lock()] on a taken mutex blocks.
    Under every interleaving of threads going through MutexLockGuard: a
    free mutex has holder 0; a thread whose [lock()] has returned is the
    holder; the step that frees the pthread mutex starts from holder 0;
    the step that sets a holder is taken with the pthread mutex already
    held by that thread; and at most one thread is inside a guard.  And
    the statements are taken, in that order: from every state in which
    the mutex is free any thread can run its four statements, after the
    first the pthread mutex is taken with [holder_] still 0, after the
    second that thread is the holder, after the third [holder_] is 0 with
    the pthread mutex still taken, after the fourth the mutex is free;
    the four steps are the two statements of [lock()] and the two of
    [unlock()] applied to the mutex; meanwhile every other thread
    waits. *)
Theorem unlock_clears_then_releases_lock_acquires_then_assigns :
  forall (b : Build) (ktid : nat -> Z) (bufsize : nat) (name0 : string)
         (sched : list nat),
    let s := guard_run b sched (guard_init ktid bufsize name0) in
    (forall m, mutex_ m = Locked ->
       unlock_clear m = mkMutexLock Locked 0
       /\ unlock b m = Done (mkMutexLock Unlocked 0))
    /\ (forall me m, mutex_ m = Unlocked ->
          lock_acquire b m = Done (mkMutexLock Locked (holder_ m))
          /\ lock b me m =
             Done (snd (CurrentThread.tid me),
                   mkMutexLock Locked (fst (CurrentThread.tid me))))
    /\ (forall me m, mutex_ m = Locked -> lock b me m = Blocked)
    /\ (mutex_ (mtx s) = Unlocked -> holder_ (mtx s) = 0)
    /\ (forall i, pc (contenders s i) = InScope ->
          mutex_ (mtx s) = Locked
          /\ holder_ (mtx s) = fst (CurrentThread.tid (self (contenders s i)))
          /\ holder_ (mtx s) = ktid i)
    /\ (forall i s', guard_step b i s = Some s' ->
          mutex_ (mtx s) = Locked -> mutex_ (mtx s') = Unlocked ->
          pc (contenders s i) = Cleared
          /\ holder_ (mtx s) = 0 /\ holder_ (mtx s') = 0)
    /\ (forall i s', guard_step b i s = Some s' ->
          holder_ (mtx s') <> 0 -> holder_ (mtx s') <> holder_ (mtx s) ->
          pc (contenders s i) = Acquired /\ mutex_ (mtx s) = Locked
          /\ mutex_ (mtx s') = Locked /\ holder_ (mtx s') = ktid i)
    /\ (forall i j, pc (contenders s i) <> Outside ->
          pc (contenders s j) <> Outside -> i = j)
    /\ (forall i, mutex_ (mtx s) = Unlocked ->
          exists s1 s2 s3 s4,
            guard_step b i s = Some s1 /\ guard_step b i s1 = Some s2
            /\ guard_step b i s2 = Some s3 /\ guard_step b i s3 = Some s4
            /\ (pc (contenders s1 i) = Acquired
                /\ mutex_ (mtx s1) = Locked /\ holder_ (mtx s1) = 0)
            /\ (pc (contenders s2 i) = InScope
                /\ mutex_ (mtx s2) = Locked /\ holder_ (mtx s2) = ktid i)
            /\ (pc (contenders s3 i) = Cleared
                /\ mutex_ (mtx s3) = Locked /\ holder_ (mtx s3) = 0)
            /\ (pc (contenders s4 i) = Outside
                /\ mutex_ (mtx s4) = Unlocked /\ holder_ (mtx s4) = 0)
            /\ (lock_acquire b (mtx s) = Done (mtx s1)
                /\ lock_assign (self (contenders s1 i)) (mtx s1)
                   = (self (contenders s2 i), mtx s2)
                /\ mtx s3 = unlock_clear (mtx s2)
                /\ unlock_release b (mtx s3) = Done (mtx s4))
            /\ (forall j, j <> i ->
                  guard_step b j s1 = None /\ guard_step b j s2 = None
                  /\ guard_step b j s3 = None))
    /\ (forall i, pc (contenders s i) <> Outside ->
          exists s', guard_step b i s = Some s'
                     /\ pc (contenders s' i)
                        = next_guard_pc (pc (contenders s i))).
Proof.
  intros b ktid bufsize name0 sched s.
  assert (Hinv : guard_inv ktid s).
  { apply guard_run_inv, guard_init_inv. }
  split; [|split; [|split; [|split; [|split; [|split; [|split;
    [|split; [|split]]]]]]]].
  - intros m Hm. unfold unlock, unlock_clear, unassignHolder. rewrite Hm.
    split; [reflexivity|].
    now rewrite unlock_release_locked.
  - intros me m Hm. split; [now apply lock_acquire_unlocked|].
    unfold lock, lock_assign. rewrite (lock_acquire_unlocked b m Hm).
    unfold assignHolder. destruct (CurrentThread.tid me); reflexivity.
  - intros me m Hm. unfold lock. now rewrite lock_acquire_locked.
  - destruct Hinv as (_ & _ & Hm). intros Hu. rewrite Hu in Hm. apply Hm.
  - destruct Hinv as (_ & Hself & Hm). intros i Hi.
    destruct (Hself i) as [Hkt Hco].
    destruct (mutex_ (mtx s)); try contradiction.
    + destruct Hm as [_ Hall]. rewrite Hall in Hi. discriminate.
    + destruct Hm as (k & Hk & Hothers & Hh).
      assert (k = i) as ->.
      { destruct (Nat.eq_dec i k) as [->|Hne]; [reflexivity|].
        rewrite (Hothers i Hne) in Hi. discriminate. }
      rewrite Hi in Hh. rewrite tid_coherent by assumption.
      repeat split; congruence.
  - intros i s' Hstep.
    apply (proj1 (guard_step_order b ktid i s s' Hinv Hstep)).
  - intros i s' Hstep.
    apply (proj2 (guard_step_order b ktid i s s' Hinv Hstep)).
  - destruct Hinv as (_ & _ & Hm). intros i j Hi Hj.
    destruct (mutex_ (mtx s)); try contradiction.
    + destruct Hm as [_ Hall]. now rewrite Hall in Hi.
    + destruct Hm as (k & Hk & Hothers & Hh).
      destruct (Nat.eq_dec i k) as [->|Hik];
        [|now rewrite (Hothers i Hik) in Hi].
      destruct (Nat.eq_dec j k) as [->|Hjk];
        [reflexivity | now rewrite (Hothers j Hjk) in Hj].
  - intros i Hu. now apply guard_block_statements.
  - intros i Hi.
    destruct (guard_step_moves b ktid s i Hinv (or_introl Hi))
      as (s' & H1 & H2 & _).
    exists s'. split; assumption.
Qed.

(** Two threads, one after the other: the first takes and releases the
    mutex, the second then takes it and is the holder. *)
Example guard_handover :
  let s := guard_run (mkBuild false false) [0; 0; 0; 0; 1; 1]%nat
             (guard_init (fun i => 100 + Z.of_nat i) 32 "main") in
  mtx s = mkMutexLock Locked 101
  /\ pc (contenders s 0%nat) = Outside /\ pc (contenders s 1%nat) = InScope.
Proof. cbn. repeat split. Qed.

(** A second thread scheduled while the first is inside does not move. *)
Example guard_waiter_blocks :
  let s := guard_run (mkBuild false false) [0; 0; 1; 1; 1]%nat
             (guard_init (fun i => 100 + Z.of_nat i) 32 "main") in
  mtx s = mkMutexLock Locked 100
  /\ pc (contenders s 0%nat) = InScope /\ pc (contenders s 1%nat) = Outside.
Proof. cbn. repeat split. Qed.

(** C5.  In a build with assertions, [~MutexLock()] on a mutex whose
    holder is not 0 ends in the failed assertion; whenever the destructor
    completes, the holder was 0 and the pthread mutex has been destroyed;
    on every fatal path the pthread mutex is as it was; and an unowned,
    free mutex is destroyed.  A thread inside a guard (with a non-zero identity) makes
    the destructor fail. *)
Theorem dtor_asserts_unowned :
  forall (b : Build) (m : MutexLock),
    NDEBUG b = false ->
    (holder_ m <> 0 -> MutexLock_dtor b m = Fatal m)
    /\ (forall m', MutexLock_dtor b m = Done m' ->
          holder_ m = 0 /\ mutex_ m = Unlocked /\ mutex_ m' = Destroyed)
    /\ (forall m', MutexLock_dtor b m = Fatal m' ->
          mutex_ m' = mutex_ m /\ holder_ m' = holder_ m)
    /\ (holder_ m = 0 -> mutex_ m = Unlocked ->
        MutexLock_dtor b m = Done (mkMutexLock Destroyed 0))
    /\ (forall ktid n s0 sched i,
          let s := guard_run b sched (guard_init ktid n s0) in
          pc (contenders s i) = InScope -> ktid i <> 0 ->
          MutexLock_dtor b (mtx s) = Fatal (mtx s)).
Proof.
  intros b m Hdbg.
  assert (Hfail : forall m0, holder_ m0 <> 0 -> MutexLock_dtor b m0 = Fatal m0).
  { intros m0 Hh. unfold MutexLock_dtor, assert_passes. rewrite Hdbg; cbn.
    apply Z.eqb_neq in Hh. now rewrite Hh. }
  split; [apply Hfail|]. split; [|split; [|split]].
  - intros m' H. unfold MutexLock_dtor, assert_passes in H.
    rewrite Hdbg in H; cbn in H.
    destruct (Z.eqb_spec (holder_ m) 0) as [Hh|Hh]; [|discriminate].
    destruct (mutex_ m) eqn:Hmu; cbn in H;
      destruct (MCHECK_passes b _) eqn:Hchk; try discriminate;
      try (apply MCHECK_passes_debug in Hchk; [discriminate | assumption]).
    injection H as <-. cbn. repeat split; assumption.
  - intros m' H. unfold MutexLock_dtor in H.
    destruct (assert_passes b (holder_ m =? 0)).
    + destruct (mutex_ m) eqn:Hmu; cbn in H;
        destruct (MCHECK_passes b _) eqn:Hchk; try discriminate;
        injection H as <-; cbn; try (split; congruence).
      rewrite MCHECK_passes_0 in Hchk. discriminate.
    + injection H as <-. split; reflexivity.
  - intros Hh Hmu. unfold MutexLock_dtor, assert_passes, set_mutex_.
    rewrite Hdbg, Hh, Hmu; cbn. now rewrite MCHECK_passes_0.
  - intros ktid n s0 sched i s Hi Hk. apply Hfail.
    pose proof (guard_run_inv b ktid sched _ (guard_init_inv ktid n s0))
      as (_ & _ & Hm).
    fold s in Hm.
    destruct (mutex_ (mtx s)); try contradiction.
    + destruct Hm as [_ Hall]. rewrite Hall in Hi. discriminate.
    + destruct Hm as (k & Hkpc & Hothers & Hh).
      assert (k = i) as ->.
      { destruct (Nat.eq_dec i k) as [->|Hne]; [reflexivity|].
        rewrite (Hothers i Hne) in Hi. discriminate. }
      rewrite Hi in Hh. congruence.
Qed.

(** Destroying a mutex that thread 4242 holds, in a checking build. *)
Lemma dtor_asserts_unowned_witness :
  MutexLock_dtor (mkBuild false false) (mkMutexLock Locked 4242)
  = Fatal (mkMutexLock Locked 4242).
Proof.
  apply (proj1 (dtor_asserts_unowned (mkBuild false false)
                  (mkMutexLock Locked 4242) eq_refl)).
  cbn. discriminate.
Defined.

(** C9.  The constructor of [UnassignGuard] sets the holder to 0 and
    leaves the pthread mutex alone; whatever the body of the scope does
    and however it is left, normally or by an exception, the scope ends
    with the holder set to what [CurrentThread::tid()] returns on the
    calling thread, which is the thread's kernel id when its cache is
    coherent. *)
Theorem UnassignGuard_clears_then_restores :
  forall (body : CurrentThread.Self -> MutexLock ->
                 CurrentThread.Self * MutexLock * Exit)
         (me : CurrentThread.Self) (owner : MutexLock)
         (me2 : CurrentThread.Self) (owner2 : MutexLock) (how : Exit),
    body me (UnassignGuard_ctor owner) = (me2, owner2, how) ->
    UnassignGuard_ctor owner = mkMutexLock (mutex_ owner) 0
    /\ UnassignGuard_scope body me owner =
       (snd (CurrentThread.tid me2),
        mkMutexLock (mutex_ owner2) (fst (CurrentThread.tid me2)),
        how)
    /\ (CurrentThread.coherent me2 ->
        holder_ (snd (fst (UnassignGuard_scope body me owner)))
        = CurrentThread.kernel_tid me2).
Proof.
  intros body me owner me2 owner2 how Hbody.
  assert (Hscope : UnassignGuard_scope body me owner =
                   (snd (CurrentThread.tid me2),
                    mkMutexLock (mutex_ owner2) (fst (CurrentThread.tid me2)),
                    how)).
  { unfold UnassignGuard_scope. rewrite Hbody.
    unfold UnassignGuard_dtor, assignHolder.
    destruct (CurrentThread.tid me2); reflexivity. }
  split; [reflexivity|]. split; [assumption|].
  intros Hco. rewrite Hscope; cbn. now apply tid_coherent.
Qed.

(** A body that throws while another thread's identity sits in the
    holder field: the guard still hands the mutex back to the caller. *)
Lemma UnassignGuard_clears_then_restores_witness :
  UnassignGuard_scope
    (fun me m => (me, mkMutexLock (mutex_ m) 999, ByException))
    (CurrentThread.fresh 17 32 "main") (mkMutexLock Locked 17)
  = (snd (CurrentThread.tid (CurrentThread.fresh 17 32 "main")),
     mkMutexLock Locked 17, ByException).
Proof.
  exact (proj1 (proj2
    (UnassignGuard_clears_then_restores
       (fun me m => (me, mkMutexLock (mutex_ m) 999, ByException))
       (CurrentThread.fresh 17 32 "main") (mkMutexLock Locked 17)
       (CurrentThread.fresh 17 32 "main") (mkMutexLock Locked 999)
       ByException eq_refl))).
Defined.

(* ================================================================== *)
(** ** Default names *)
(* ================================================================== *)

Lemma nth_error_repeat_empty n i :
  (i < n)%nat -> nth_error (repeat "" n) i = Some "".
Proof.
  revert i; induction n as [|n IH]; intros [|i] H; cbn; try lia; auto.
  apply IH. lia.
Qed.

(** What [setDefaultName] gives a run of unnamed Threads: [n] Threads
    constructed with empty names, at most [2^32] of them, starting from
    any counter value, get [n] pairwise different names: the [i]-th is
    "Thread" followed by the decimal counter value before its own
    construction.  Below [INT32_MAX] each construction makes the counter
    strictly larger.  With the counter at its initial value the first two
    names are "Thread0" and "Thread1". *)
Theorem unnamed_threads_get_distinct_default_names :
  forall (f : ThreadFunc) (c : Z) (n : nat),
    int32 c -> Z.of_nat n <= 2 ^ 32 ->
    let names := map name_ (snd (construct_all c f (repeat "" n))) in
    List.length names = n
    /\ NoDup names
    /\ (forall i, (i < n)%nat ->
          nth_error names i
          = Some ("Thread" ++ Stdio.fmt_d (wrap32 (c + Z.of_nat i))))
    /\ (forall name, c < INT32_MAX -> c < fst (Thread_ctor c f name))
    /\ map name_ (snd (construct_all numCreated_initial f [""; ""]))
       = ["Thread0"; "Thread1"].
Proof.
  intros f c n Hc Hn names.
  assert (Hlen : List.length names = n).
  { unfold names. now rewrite length_map, construct_all_length, repeat_length. }
  assert (Hnth : forall i, (i < n)%nat ->
            nth_error names i
            = Some ("Thread" ++ Stdio.fmt_d (wrap32 (c + Z.of_nat i)))).
  { intros i Hi. unfold names.
    now rewrite (construct_all_nth f _ c i "" Hc (nth_error_repeat_empty n i Hi)). }
  split; [assumption|]. split; [|split; [assumption|split]].
  - apply NoDup_nth_error. intros i j Hi E. rewrite Hlen in Hi.
    assert (Hj : (j < n)%nat).
    { rewrite <- Hlen. apply nth_error_Some. rewrite <- E, (Hnth i Hi).
      discriminate. }
    rewrite (Hnth i Hi), (Hnth j Hj) in E.
    assert (E' : "Thread" ++ Stdio.fmt_d (wrap32 (c + Z.of_nat i))
                 = "Thread" ++ Stdio.fmt_d (wrap32 (c + Z.of_nat j)))
      by congruence.
    clear E; rename E' into E.
    apply default_name_inj in E; try apply wrap32_int32.
    destruct (Nat.lt_trichotomy i j) as [L|[L|L]]; [|assumption|].
    + exfalso. revert E. apply wrap32_apart. lia.
    + exfalso. symmetry in E. revert E. apply wrap32_apart. lia.
  - intros name Hlt. rewrite Thread_ctor_counter, wrap32_id.
    + lia.
    + unfold int32, INT32_MIN, INT32_MAX in *. lia.
  - reflexivity.
Qed.

(** Three unnamed Threads across the wrap of the counter: "Thread2147483646",
    "Thread2147483647", "Thread-2147483648". *)
Lemma unnamed_threads_get_distinct_default_names_witness :
  NoDup (map name_ (snd (construct_all 2147483646 Returns (repeat "" 3)))).
Proof.
  refine (proj1 (proj2
    (unnamed_threads_get_distinct_default_names Returns 2147483646 3 _ _))).
  - unfold int32, INT32_MIN, INT32_MAX. lia.
  - cbn. lia.
Defined.

(** C4.  The code at the claim's own example: in a fresh process the
    first two Threads constructed with empty names are named "Thread0"
    and "Thread1" ([fetch_add] hands back the counter as it was before
    the addition), not "Thread1" and "Thread2". *)
Lemma first_default_names_are_not_Thread1_Thread2 :
  map name_ (snd (construct_all numCreated_initial Returns [""; ""]))
  = ["Thread0"; "Thread1"]
  /\ map name_ (snd (construct_all numCreated_initial Returns [""; ""]))
     <> ["Thread1"; "Thread2"].
Proof. cbn. split; [reflexivity | discriminate]. Qed.

Lemma wrap32_period a : wrap32 (a + 2 ^ 32) = wrap32 a.
Proof.
  unfold wrap32.
  replace (a + 2 ^ 32 + 2 ^ 31) with (a + 2 ^ 31 + 1 * 2 ^ 32) by lia.
  now rewrite Z_mod_plus_full.
Qed.

(** C10 (as the code has it).  Each construction moves the counter on by
    one (with 32-bit wrap-around), whether or not a name was given; the
    value before the move names the Thread only when the given name is
    empty.  So in a run of constructions the [i]-th Thread, if unnamed,
    is named after [c + i], counting the named ones too: a named Thread
    between two unnamed ones leaves a gap in their numbers, the default
    names of two constructions fewer than [2^32] apart are different, and
    those of two constructions exactly [2^32] apart are the same. *)
Theorem every_construction_advances_the_counter :
  forall (f : ThreadFunc) (c : Z) (names : list string),
    int32 c ->
    let made := map name_ (snd (construct_all c f names)) in
    (forall name, fst (Thread_ctor c f name) = snd (fetch_add c 1)
                  /\ snd (fetch_add c 1) = wrap32 (c + 1))
    /\ (forall name,
          name_ (snd (Thread_ctor c f name))
          = if empty name then "Thread" ++ Stdio.fmt_d (fst (fetch_add c 1))
            else name)
    /\ fst (construct_all c f names)
       = wrap32 (c + Z.of_nat (List.length names))
    /\ (forall i n, nth_error names i = Some n ->
          nth_error made i
          = Some (if empty n
                  then "Thread" ++ Stdio.fmt_d (wrap32 (c + Z.of_nat i))
                  else n))
    /\ (forall i j s t, (i < j)%nat -> Z.of_nat j - Z.of_nat i < 2 ^ 32 ->
          nth_error names i = Some "" -> nth_error names j = Some "" ->
          nth_error made i = Some s -> nth_error made j = Some t -> s <> t)
    /\ (forall i j, Z.of_nat j = Z.of_nat i + 2 ^ 32 ->
          nth_error names i = Some "" -> nth_error names j = Some "" ->
          nth_error made j = nth_error made i)
    /\ map name_
         (snd (construct_all numCreated_initial f [""; "worker"; ""]))
       = ["Thread0"; "worker"; "Thread2"].
Proof.
  intros f c names Hc made.
  split; [|split; [|split; [|split; [|split; [|split]]]]].
  - intros name. split; [apply Thread_ctor_counter | reflexivity].
  - intros name. apply Thread_ctor_name.
  - now apply construct_all_counter.
  - intros i n Hn. now apply construct_all_nth.
  - intros i j s t Hij Hd Hi Hj Hs Ht E. unfold made in Hs, Ht.
    rewrite (construct_all_nth f names c i "" Hc Hi) in Hs.
    rewrite (construct_all_nth f names c j "" Hc Hj) in Ht.
    cbn [empty] in Hs, Ht.
    assert (E' : "Thread" ++ Stdio.fmt_d (wrap32 (c + Z.of_nat i))
                 = "Thread" ++ Stdio.fmt_d (wrap32 (c + Z.of_nat j)))
      by congruence.
    apply default_name_inj in E'; try apply wrap32_int32.
    revert E'. apply wrap32_apart. lia.
  - intros i j Hd Hi Hj. unfold made.
    rewrite (construct_all_nth f names c i "" Hc Hi).
    rewrite (construct_all_nth f names c j "" Hc Hj).
    rewrite Hd, Z.add_assoc, wrap32_period. reflexivity.
  - reflexivity.
Qed.

(** Three constructions, one of them named, across the wrap of the
    counter. *)
Lemma every_construction_advances_the_counter_witness :
  fst (construct_all 2147483646 (Throws OtherException) [""; "io"; ""])
  = wrap32 (2147483646 + 3).
Proof.
  refine (proj1 (proj2 (proj2
    (every_construction_advances_the_counter (Throws OtherException)
       2147483646 [""; "io"; ""] _)))).
  unfold int32, INT32_MIN, INT32_MAX. lia.
Defined.

(** C10 as stated fails: default names are not always distinct.  In a
    process that constructs [2^32 + 1] Threads with empty names the
    counter has come round, and the last is named "Thread0" like the
    first. *)
Lemma default_names_repeat_when_the_counter_wraps :
  let names := repeat "" (Z.to_nat (2 ^ 32 + 1)) in
  let made :=
    map name_ (snd (construct_all numCreated_initial Returns names)) in
  nth_error made 0 = Some "Thread0"
  /\ nth_error made (Z.to_nat (2 ^ 32)) = Some "Thread0"
  /\ ~ NoDup made.
Proof.
  cbv zeta.
  assert (Hc : int32 numCreated_initial).
  { unfold int32, INT32_MIN, INT32_MAX, numCreated_initial. lia. }
  assert (H0 : nth_error
                 (map name_
                    (snd (construct_all numCreated_initial Returns
                            (repeat "" (Z.to_nat (2 ^ 32 + 1)))))) 0
               = Some "Thread0").
  { rewrite (construct_all_nth Returns _ numCreated_initial 0 "" Hc).
    - reflexivity.
    - apply nth_error_repeat_empty. lia. }
  assert (H1 : nth_error
                 (map name_
                    (snd (construct_all numCreated_initial Returns
                            (repeat "" (Z.to_nat (2 ^ 32 + 1))))))
                 (Z.to_nat (2 ^ 32))
               = Some "Thread0").
  { rewrite (construct_all_nth Returns _ numCreated_initial
               (Z.to_nat (2 ^ 32)) "" Hc).
    - rewrite Z2Nat.id by lia.
      replace (wrap32 (numCreated_initial + 2 ^ 32)) with 0
        by (rewrite wrap32_period; reflexivity).
      reflexivity.
    - apply nth_error_repeat_empty. lia. }
  split; [exact H0|]. split; [exact H1|].
  intros Hnd. rewrite NoDup_nth_error in Hnd.
  specialize (Hnd 0%nat (Z.to_nat (2 ^ 32))).
  rewrite H0, H1 in Hnd.
  rewrite length_map, construct_all_length, repeat_length in Hnd.
  specialize (Hnd ltac:(lia) eq_refl). lia.
Qed.

(* ================================================================== *)
(** ** start() against the trampoline: what every interleaving keeps *)
(* ================================================================== *)

Lemma at_start_inv e f nm : start_inv e f nm (at_start (constructed f nm)).
Proof.
  constructor; cbn; try reflexivity; try tauto; try discriminate.
Qed.

Lemma assert_passes_true b : assert_passes b true = true.
Proof. apply orb_true_r. Qed.

Lemma assert_passes_debug b c :
  assert_passes b c = true -> NDEBUG b = false -> c = true.
Proof. unfold assert_passes. intros H Hd. rewrite Hd in H. exact H. Qed.

Ltac world_simpl :=
  cbn [thread heap caller callee callee_self os_name calls stderr aborted trace
       set_thread set_heap set_caller set_callee set_callee_self set_os_name
       set_calls set_aborted abort perror write_stderr log
       set_display_name eprint prctl_set_name
       started_ joined_ pthreadId_ tid_ func_ name_ latch_
       set_started_ set_joined_ set_pthreadId_ set_tid_ set_name_ set_latch_] in *.

Ltac fin :=
  first [ assumption | reflexivity | discriminate | tauto | congruence | lia | idtac ].

Lemma caller_step_inv e f nm w w' :
  start_inv e f nm w -> caller_step e w = Some w' -> start_inv e f nm w'.
Proof.
  intros I H.
  destruct w as [t h cpc kpc me os n err ab tr].
  destruct I as [I1 I2 I3 I4 I5 I6 I7 I8 I9 I10 I11 I12 I13 I14 I15 I16 I17].
  world_simpl.
  unfold caller_step in H; world_simpl.
  destruct ab; [discriminate|].
  destruct (create_rc e =? 0) eqn:Hrc.
  all: destruct cpc; try discriminate H;
    destruct kpc; cbn in I5; rewrite ?Hrc in I5; cbn in I5; try discriminate I5.
  all: cbn [started_at] in I4; cbn [signalled] in I9.
  all: unfold wait_returns in H; rewrite ?I4, ?I9, ?assert_passes_true in H; cbn [negb Z.leb Z.compare] in H; rewrite ?assert_passes_true in H.
  all: try discriminate H.
  all: try (destruct (assert_passes (build e) (0 <? tid_ t)) eqn:Hassert).
  all: injection H as <-.
  all: constructor; world_simpl; fin.
  all: try (cbn; rewrite ?Hrc; cbn; fin).
  all: try (intros _ Hdbg; apply (assert_passes_debug _ _ Hassert) in Hdbg; lia).
  all: try (intros _; repeat split; fin).
  all: try (subst tr; cbn in *; subst; reflexivity).
Qed.



Lemma pcs_ok_advance e c k k' :
  pcs_ok e c k = true -> k <> NotSpawned -> k' <> NotSpawned ->
  (signalled k = true -> signalled k' = true) ->
  pcs_ok e c k' = true.
Proof.
  intros H Hk Hk' Hs.
  assert (Hc : (create_rc e =? 0) = true
               /\ (c = StartWait
                   \/ (c = StartAssertTid \/ c = StartReturned)
                      /\ signalled k = true)).
  { destruct k; try contradiction; cbn in H;
      apply andb_prop in H; destruct H as [H1 H2]; (split; [assumption|]);
      destruct c; try discriminate H2; tauto. }
  destruct Hc as [Hrc [-> | [[-> | ->] Hsig]]];
    destruct k'; try contradiction; cbn; rewrite Hrc; cbn;
    try reflexivity; apply (Hs Hsig).
Qed.

Lemma pcs_ok_unsignalled e c k :
  pcs_ok e c k = true -> k <> NotSpawned -> signalled k = false ->
  c = StartWait.
Proof.
  intros H Hk Hs.
  destruct k; try contradiction; try discriminate Hs; cbn in H;
    apply andb_prop in H; destruct H as [_ H]; destruct c;
    try discriminate H; reflexivity.
Qed.

Ltac callee_finish H Hcs :=
  injection H as <-; constructor; world_simpl;
  [ assumption | assumption | assumption | assumption
  | eapply pcs_ok_advance; [eassumption | discriminate | discriminate | cbn; congruence]
  | cbn; try tauto; try (split; [first [reflexivity | assumption] | cbn; lia])
  | reflexivity
  | cbn; try assumption; try reflexivity
  | cbn; try assumption; try reflexivity
  | reflexivity
  | reflexivity
  | try (rewrite Hcs); reflexivity
  | reflexivity
  | intros _; cbn; repeat split; congruence
  | cbn; try (intuition discriminate)
  | cbn; try (intuition discriminate)
  | try assumption ].

Lemma callee_step_inv e f nm w w' :
  start_inv e f nm w -> callee_step e w = Some w' -> start_inv e f nm w'.
Proof.
  intros I H.
  destruct w as [t h cpc kpc me os n err ab tr].
  destruct I as [I1 I2 I3 I4 I5 I6 I7 I8 I9 I10 I11 I12 I13 I14 I15 I16 I17].
  world_simpl.
  unfold callee_step in H; world_simpl.
  destruct ab; [discriminate|].
  assert (Hcs : caller_stderr e cpc = []).
  { destruct cpc; try reflexivity. destruct kpc; cbn in H; try discriminate H;
      cbn in I5; rewrite andb_false_r in I5; discriminate. }
  rewrite Hcs in I12. cbn [app] in I12.
  pose proof (tid_value me) as Htv.
  pose proof (tid_kernel_tid me) as Htk.
  pose proof (tid_threadName me) as Htn.
  pose proof (tid_cached me) as Htc.
  destruct (CurrentThread.tid me) as [v me'].
  cbn [fst snd] in *.
  destruct kpc; try discriminate H.
  all: cbn [heap_at] in I11; subst h; cbn in H.
  all: destruct I14 as (Ia & Ib & Ic); [discriminate|].
  all: cbn in I7; subst tr; cbn in I10, I12, I13, I15, I16, Ic; subst n err os.
  all: cbn [published signalled] in *.
  - (* line 80 *)
    rewrite Ib in Htv; cbn in Htv; rewrite Ia in Htv; subst v.
    pose proof (pcs_ok_unsignalled _ _ _ I5 ltac:(discriminate) eq_refl) as ->.
    callee_finish H Hcs. discriminate.
  - (* line 81 *) callee_finish H Hcs.
  - (* line 82 *)
    pose proof (pcs_ok_unsignalled _ _ _ I5 ltac:(discriminate) eq_refl) as ->.
    callee_finish H Hcs. lia.
  - (* line 83 *) callee_finish H Hcs.
  - (* lines 85-86 *) callee_finish H Hcs.
  - (* line 87 *) rewrite Ic in H. callee_finish H Hcs.
  - (* line 90 *)
    destruct f as [|ex0|]; cbn in H; callee_finish H Hcs.
  - (* line 91 *) callee_finish H Hcs.
  - (* the handlers *)
    destruct I6 as [Hf Hk].
    destruct e0 as [what st|what|];
      destruct k as [|[|[|[|[|k]]]]]; cbn in Hk; try lia; cbn in H;
      try discriminate H.
    all: cbn in Ic, I15, I16.
    all: callee_finish H Hcs.
    destruct f as [|ex0|]; try discriminate Hf; [|tauto].
    injection Hf as ->. tauto.
  - (* what line 109 rethrew leaves startThread *)
    destruct I6 as [-> Hf]. cbn in Ic, I15, I16.
    destruct Hf as [-> | ->]; cbn in H; callee_finish H Hcs.
  - (* line 120 *) callee_finish H Hcs.
Qed.


Lemma step_inv e f nm a w w' :
  start_inv e f nm w -> step e a w = Some w' -> start_inv e f nm w'.
Proof.
  destruct a; [apply caller_step_inv | apply callee_step_inv].
Qed.

Lemma exec_inv e f nm sched : forall w,
  start_inv e f nm w -> start_inv e f nm (exec e sched w).
Proof.
  induction sched as [|a rest IH]; intros w Hw; cbn [exec]; [assumption|].
  destruct (step e a w) as [w'|] eqn:E.
  - apply IH. eapply step_inv; eassumption.
  - now apply IH.
Qed.

(** The constructor leaves a Thread that differs from [constructed] in
    nothing, and whose name is not empty. *)
Lemma Thread_ctor_constructed c f name :
  snd (Thread_ctor c f name)
  = constructed f (name_ (snd (Thread_ctor c f name))).
Proof.
  unfold Thread_ctor, setDefaultName, fetch_add, constructed; cbn [name_].
  destruct (empty name); [|reflexivity].
  destruct (Stdio.snprintf 32 ("Thread" ++ Stdio.fmt_d c)); reflexivity.
Qed.

Lemma Thread_ctor_name_nonempty c f name :
  empty (name_ (snd (Thread_ctor c f name))) = false.
Proof.
  rewrite Thread_ctor_name. destruct (empty name) eqn:E; [reflexivity|assumption].
Qed.

Lemma started_inv e c f name sched :
  start_inv e f (name_ (snd (Thread_ctor c f name)))
            (exec e sched (at_start (snd (Thread_ctor c f name)))).
Proof.
  apply exec_inv. rewrite Thread_ctor_constructed at 2. apply at_start_inv.
Qed.

Lemma exec_app e s1 s2 w : exec e (s1 ++ s2)%list w = exec e s2 (exec e s1 w).
Proof.
  revert w; induction s1 as [|a s1 IH]; intros w; cbn [exec app]; [reflexivity|].
  destruct (step e a w); apply IH.
Qed.


(** *** Progress: the runs that exist *)

Lemma callee_progress e f nm w :
  start_inv e f nm w -> aborted w = false ->
  callee_final (callee w) = false ->
  exists w',
    callee_step e w = Some w'
    /\ callee w' = next_callee f (callee w)
    /\ caller w' = caller w
    /\ (aborted w' = true -> callee_final (callee w') = true).
Proof.
  intros I Hab Hfin.
  pose proof (inv_heap _ _ _ _ I) as Hh.
  pose proof (inv_outcome _ _ _ _ I) as Ho.
  destruct w as [t h cpc kpc me os n err ab tr].
  world_simpl. subst ab.
  unfold callee_step; world_simpl.
  destruct (CurrentThread.tid me) as [v me'].
  destruct kpc; try discriminate Hfin; cbn [heap_at] in Hh; subst h; cbn.
  1-6, 8, 11: eexists; repeat split; discriminate.
  - destruct f; cbn; eexists; repeat split; discriminate.
  - cbn in Ho. destruct Ho as [_ Hk].
    destruct e0 as [what st|what|];
      destruct k as [|[|[|[|[|k]]]]]; cbn in Hk, Hfin; try lia;
      try discriminate Hfin; cbn; eexists; repeat split; discriminate.
  - cbn in Ho. destruct Ho as [_ [-> | ->]]; cbn;
      eexists; repeat split; reflexivity.
Qed.

Lemma callee_runs e f nm n : forall w,
  start_inv e f nm w -> aborted w = false ->
  (forall i, (i < n)%nat ->
     callee_final (Nat.iter i (next_callee f) (callee w)) = false) ->
  callee (exec e (repeat Callee n) w) = Nat.iter n (next_callee f) (callee w)
  /\ caller (exec e (repeat Callee n) w) = caller w
  /\ (aborted (exec e (repeat Callee n) w) = true ->
      callee_final (callee (exec e (repeat Callee n) w)) = true).
Proof.
  induction n as [|n IH]; intros w I Hab Hmove.
  - cbn. repeat split. congruence.
  - cbn [repeat exec step].
    destruct (callee_progress e f nm w I Hab (Hmove 0%nat ltac:(lia)))
      as (w' & Hstep & Hk & Hc & Hfin).
    rewrite Hstep.
    assert (I' : start_inv e f nm w') by (eapply callee_step_inv; eassumption).
    destruct n as [|n].
    + cbn [repeat exec Nat.iter nat_rect]. repeat split; assumption.
    + assert (Hab' : aborted w' = false).
      { destruct (aborted w') eqn:E; [|reflexivity].
        specialize (Hfin eq_refl). rewrite Hk in Hfin.
        specialize (Hmove 1%nat ltac:(lia)). cbn in Hmove. congruence. }
      destruct (IH w' I' Hab') as (H1 & H2 & H3).
      { intros i Hi. rewrite Hk.
        specialize (Hmove (S i) ltac:(lia)).
        rewrite Nat.iter_succ_r in Hmove. exact Hmove. }
      split; [|split].
      * rewrite H1, Hk. symmetry. apply Nat.iter_succ_r.
      * congruence.
      * exact H3.
Qed.

(** The caller's first four statements, when creation succeeds. *)
Lemma spawn_reaches_wait e f nm :
  create_rc e = 0 ->
  let w := exec e [Caller; Caller; Caller; Caller] (at_start (constructed f nm)) in
  caller w = StartWait /\ callee w = RunPublish /\ aborted w = false.
Proof.
  intros Hrc. cbv zeta. unfold at_start, constructed. cbn [exec step].
  unfold caller_step; cbn. rewrite !assert_passes_true, !Hrc; cbn.
  repeat split.
Qed.

Lemma wait_passes e f nm w :
  start_inv e f nm w -> aborted w = false -> caller w = StartWait ->
  signalled (callee w) = true ->
  caller_step e w = Some (set_caller StartAssertTid w).
Proof.
  intros I Hab Hc Hs. unfold caller_step. rewrite Hab, Hc.
  unfold wait_returns. now rewrite (inv_latch _ _ _ _ I), Hs.
Qed.

Lemma assert_tid_passes e f nm w :
  start_inv e f nm w -> aborted w = false -> caller w = StartAssertTid ->
  NDEBUG (build e) = true \/ 0 < spawned_tid e ->
  caller_step e w = Some (set_caller StartReturned w).
Proof.
  intros I Hab Hc Hok. unfold caller_step. rewrite Hab, Hc.
  pose proof (inv_pcs _ _ _ _ I) as Hp. rewrite Hc in Hp.
  assert (Hpub : published (callee w) = true).
  { destruct (callee w); cbn in Hp; rewrite ?andb_false_r in Hp;
      try discriminate Hp; reflexivity. }
  rewrite (inv_tid _ _ _ _ I), Hpub.
  replace (assert_passes (build e) (0 <? spawned_tid e)) with true;
    [reflexivity|].
  symmetry. unfold assert_passes. destruct Hok as [-> | H]; [reflexivity|].
  apply Z.ltb_lt in H. rewrite H. apply orb_true_r.
Qed.

Lemma handshake_returns e f nm :
  create_rc e = 0 ->
  NDEBUG (build e) = true \/ 0 < spawned_tid e ->
  caller (exec e handshake (at_start (constructed f nm))) = StartReturned.
Proof.
  intros Hrc Hok. unfold handshake. rewrite !exec_app.
  destruct (spawn_reaches_wait e f nm Hrc) as (Hc & Hk & Hab).
  pose proof (exec_inv e f nm [Caller; Caller; Caller; Caller] _
                (at_start_inv e f nm)) as I.
  cbv zeta in Hc, Hk, Hab.
  generalize dependent
    (exec e [Caller; Caller; Caller; Caller] (at_start (constructed f nm))).
  intros w Hc Hk Hab I.
  destruct (callee_runs e f nm 3 w I Hab) as (H1 & H2 & H3).
  { intros i Hi. rewrite Hk.
    destruct i as [|[|[|i]]]; try reflexivity; lia. }
  pose proof (exec_inv e f nm (repeat Callee 3) w I) as I'.
  rewrite Hk in H1. cbn [Nat.iter nat_rect next_callee] in H1.
  rewrite Hc in H2.
  generalize dependent (exec e (repeat Callee 3) w).
  intros w' H1 H2 H3 I'.
  assert (Hab' : aborted w' = false).
  { destruct (aborted w'); [|reflexivity].
    specialize (H3 eq_refl). rewrite H1 in H3. discriminate. }
  cbn [exec step].
  rewrite (wait_passes e f nm w' I' Hab' H2) by (rewrite H1; reflexivity).
  assert (I'' : start_inv e f nm (set_caller StartAssertTid w')).
  { eapply caller_step_inv; [exact I'|].
    apply (wait_passes e f nm w' I' Hab' H2). rewrite H1; reflexivity. }
  rewrite (assert_tid_passes e f nm _ I'' Hab' eq_refl Hok).
  reflexivity.
Qed.
Lemma signalled_published k : signalled k = true -> published k = true.
Proof. destruct k; cbn; congruence. Qed.

Lemma trace_at_signalled ktid nm k :
  signalled k = true ->
  exists rest, trace_at ktid nm k = EvPublish ktid :: EvCountDown :: rest.
Proof.
  destruct k; cbn; try discriminate; intros _; eexists; reflexivity.
Qed.


(** What the invariant says once [start()] has returned. *)
Lemma returned_facts e f nm w :
  start_inv e f nm w -> caller w = StartReturned ->
  create_rc e = 0
  /\ published (callee w) = true
  /\ signalled (callee w) = true
  /\ count_ (latch_ (thread w)) = 0
  /\ tid_ (thread w) = spawned_tid e
  /\ tid_ (thread w)
     = CurrentThread.t_cachedTid (CurrentThread.tls (callee_self w))
  /\ (exists rest,
        trace w = EvPublish (tid_ (thread w)) :: EvCountDown :: rest)
  /\ (NDEBUG (build e) = false \/ 0 < spawned_tid e -> 0 < tid_ (thread w)).
Proof.
  intros I Hc.
  pose proof (inv_pcs _ _ _ _ I) as Hp. rewrite Hc in Hp.
  assert (Hrc : (create_rc e =? 0) = true /\ signalled (callee w) = true).
  { destruct (callee w); cbn in Hp; try discriminate Hp;
      apply andb_prop in Hp; destruct Hp; split; assumption. }
  destruct Hrc as [Hrc Hsig].
  pose proof (signalled_published _ Hsig) as Hpub.
  assert (Hns : callee w <> NotSpawned).
  { intros E. rewrite E in Hsig. discriminate. }
  destruct (inv_self _ _ _ _ I Hns) as (_ & Hcache & _).
  pose proof (inv_tid _ _ _ _ I) as Htid. rewrite Hpub in Htid, Hcache.
  repeat split.
  - now apply Z.eqb_eq.
  - assumption.
  - assumption.
  - rewrite (inv_latch _ _ _ _ I), Hsig. reflexivity.
  - assumption.
  - congruence.
  - rewrite (inv_trace _ _ _ _ I), Htid. now apply trace_at_signalled.
  - intros [Hd | Hk]; [|lia]. now apply (inv_returned _ _ _ _ I).
Qed.

Lemma wait_blocks e f nm w :
  start_inv e f nm w -> caller w = StartWait ->
  0 < count_ (latch_ (thread w)) \/ signalled (callee w) = false ->
  caller_step e w = None.
Proof.
  intros I Hc Hor. unfold caller_step.
  destruct (aborted w); [reflexivity|]. rewrite Hc.
  unfold wait_returns.
  destruct (Z.leb_spec (count_ (latch_ (thread w))) 0) as [Hle|]; [|reflexivity].
  exfalso. destruct Hor as [Hpos | Hs]; [lia|].
  rewrite (inv_latch _ _ _ _ I), Hs in Hle. lia.
Qed.

(** C1.  For a Thread made by its constructor and any interleaving of
    [start()] with the new thread: the latch starts at 1; while it is
    positive the caller at [latch_.wait()] cannot move; and once
    [start()] has returned, thread creation had succeeded, the new thread
    has executed the store through [tid_] and the [countDown()], the
    latch is at 0, [tid_] holds the identity the new thread has cached,
    and [tid_ > 0] (by the assertion in a checking build, and in any
    build when the kernel's id is positive).  When creation succeeds and
    the assertion cannot fail, there is a schedule on which [start()]
    returns. *)
Theorem start_returns_after_tid_published :
  forall (e : Env) (c : Z) (f : ThreadFunc) (name : string)
         (sched : list Actor),
    let t := snd (Thread_ctor c f name) in
    let w := exec e sched (at_start t) in
    count_ (latch_ t) = 1
    /\ (caller w = StartWait -> 0 < count_ (latch_ (thread w)) ->
        caller_step e w = None)
    /\ (caller w = StartWait -> signalled (callee w) = false ->
        caller_step e w = None)
    /\ (caller w = StartReturned ->
        create_rc e = 0
        /\ published (callee w) = true
        /\ signalled (callee w) = true
        /\ count_ (latch_ (thread w)) = 0
        /\ tid_ (thread w) = spawned_tid e
        /\ tid_ (thread w)
           = CurrentThread.t_cachedTid (CurrentThread.tls (callee_self w))
        /\ (exists rest,
              trace w = EvPublish (tid_ (thread w)) :: EvCountDown :: rest)
        /\ (NDEBUG (build e) = false \/ 0 < spawned_tid e ->
            0 < tid_ (thread w)))
    /\ (create_rc e = 0 ->
        NDEBUG (build e) = true \/ 0 < spawned_tid e ->
        caller (exec e handshake (at_start t)) = StartReturned).
Proof.
  intros e c f name sched.
  pose proof (started_inv e c f name sched) as I.
  pose proof (Thread_ctor_constructed c f name) as Ht.
  cbv zeta.
  generalize dependent (exec e sched (at_start (snd (Thread_ctor c f name)))).
  intros w I.
  split; [|split; [|split; [|split]]].
  - rewrite Ht. reflexivity.
  - intros Hc Hpos. apply (wait_blocks _ _ _ _ I Hc). now left.
  - intros Hc Hs. apply (wait_blocks _ _ _ _ I Hc). now right.
  - apply (returned_facts _ _ _ _ I).
  - intros Hrc Hok. rewrite Ht. now apply handshake_returns.
Qed.

(** *** The order of the trampoline's statements *)

Lemma c_str_idem s : c_str (c_str s) = c_str s.
Proof.
  induction s as [|ch s IH]; [reflexivity|]. cbn [c_str].
  destruct (Ascii.eqb ch Ascii.zero) eqn:E; [reflexivity|].
  cbn [c_str]. now rewrite E, IH.
Qed.

(** A text without a NUL byte is its own C string. *)
Lemma c_str_no_nul s :
  ~ In Ascii.zero (list_ascii_of_string s) -> c_str s = s.
Proof.
  induction s as [|ch s IH]; intros H; [reflexivity|].
  cbn [c_str]. cbn [list_ascii_of_string In] in H.
  destruct (Ascii.eqb_spec ch Ascii.zero) as [->|Hne]; [tauto|].
  rewrite IH by tauto. reflexivity.
Qed.

Lemma c_str_prefix s : exists rest, s = c_str s ++ rest.
Proof.
  induction s as [|ch s [rest IH]]; [now exists ""|]. cbn [c_str].
  destruct (Ascii.eqb ch Ascii.zero).
  - now exists (String ch s).
  - exists rest. cbn. now rewrite <- IH.
Qed.

Lemma display_name_nonempty nm :
  empty nm = false -> display_name nm = c_str nm.
Proof. unfold display_name. now intros ->. Qed.

Lemma c_str_display_name nm : c_str (display_name nm) = display_name nm.
Proof.
  unfold display_name. destruct (empty nm); [reflexivity | apply c_str_idem].
Qed.

Lemma handler_events_no_call ex nm n :
  filter is_call (firstn n (handler_events ex nm)) = [].
Proof.
  destruct ex; do 6 (destruct n as [|n]; [reflexivity|]);
    cbn [handler_events firstn]; rewrite ?firstn_nil; reflexivity.
Qed.

Lemma filter_is_call_nil l : filter is_call l = [] -> ~ In EvCall l.
Proof.
  intros H Hin.
  assert (Hf : In EvCall (filter is_call l)) by (apply filter_In; now split).
  rewrite H in Hf. exact Hf.
Qed.

(** A trace is a prefix of the prologue, or the whole prologue followed
    by events that are no calls. *)
Lemma trace_at_shape ktid nm k :
  exists n rest,
    trace_at ktid nm k = (firstn n (prologue ktid nm) ++ rest)%list
    /\ (rest <> [] -> (5 <= n)%nat)
    /\ ~ In EvCall rest.
Proof.
  destruct k.
  1-2: exists 0%nat, []; cbn; split; [reflexivity | split; tauto].
  1-2: exists 1%nat, []; cbn; split; [reflexivity | split; tauto].
  1-2: exists 2%nat, []; cbn; split; [reflexivity | split; tauto].
  - exists 3%nat, []; cbn; split; [reflexivity | split; tauto].
  - exists 4%nat, []; cbn; split; [reflexivity | split; tauto].
  - exists 5%nat, []; cbn; split; [reflexivity | split; tauto].
  - exists 5%nat, (firstn k (handler_events e nm)).
    split; [reflexivity | split; [intros _; lia|]].
    apply filter_is_call_nil, handler_events_no_call.
  - exists 5%nat, (handler_events e nm).
    split; [reflexivity | split; [intros _; lia|]].
    apply filter_is_call_nil.
    rewrite <- (firstn_all (handler_events e nm)).
    apply handler_events_no_call.
  - exists 5%nat, (handler_events OtherException nm ++ [EvAbort])%list.
    split; [reflexivity | split; [intros _; lia|]].
    cbn. intuition discriminate.
  - exists 5%nat, (handler_events OtherException nm).
    split; [reflexivity | split; [intros _; lia|]].
    cbn. intuition discriminate.
  - exists 5%nat, [EvThreadName "finished"].
    split; [reflexivity | split; [intros _; lia|]].
    cbn. intuition discriminate.
  - exists 5%nat, [EvThreadName "finished"; EvDelete].
    split; [reflexivity | split; [intros _; lia|]].
    cbn. intuition discriminate.
Qed.

Lemma calls_of_trace_at ktid nm k : (calls_of (trace_at ktid nm k) <= 1)%nat.
Proof.
  unfold calls_of.
  destruct k; cbn [trace_at]; try (cbn; lia).
  - rewrite filter_app, length_app, handler_events_no_call. cbn. lia.
  - rewrite filter_app, length_app, <- (firstn_all (handler_events e nm)),
      handler_events_no_call. cbn. lia.
Qed.

(** The statement [t_threadName = name_.empty() ? "LuteThread" : ...],
    for any record. *)
Lemma set_name_step e w d :
  aborted w = false -> callee w = RunSetName -> heap w = Some d ->
  exists w',
    callee_step e w = Some w'
    /\ CurrentThread.t_threadName (CurrentThread.tls (callee_self w'))
       = (if empty (detail.name_ d) then "LuteThread"
          else c_str (detail.name_ d)).
Proof.
  intros Hab Hk Hh. unfold callee_step. rewrite Hab, Hk, Hh.
  eexists. split; reflexivity.
Qed.

Lemma before_call_facts e f nm w :
  start_inv e f nm w -> callee w = RunCall ->
  trace w = firstn 4 (prologue (spawned_tid e) nm)
  /\ tid_ (thread w) = spawned_tid e
  /\ count_ (latch_ (thread w)) = 0
  /\ CurrentThread.t_threadName (CurrentThread.tls (callee_self w))
     = display_name nm
  /\ os_name w = substring 0 15 (display_name nm)
  /\ calls w = 0%nat.
Proof.
  intros I Hk.
  pose proof (inv_trace _ _ _ _ I) as Ht. rewrite Hk in Ht. cbn [trace_at] in Ht.
  pose proof (inv_tid _ _ _ _ I) as Htid. rewrite Hk in Htid.
  pose proof (inv_latch _ _ _ _ I) as Hl. rewrite Hk in Hl.
  pose proof (inv_os _ _ _ _ I) as Hos. rewrite Ht in Hos.
  cbn in Hos. rewrite c_str_display_name in Hos.
  pose proof (inv_calls _ _ _ _ I) as Hcalls. rewrite Ht in Hcalls.
  destruct (inv_self _ _ _ _ I) as (_ & _ & Hn); [rewrite Hk; discriminate|].
  rewrite Ht in Hn.
  repeat split; assumption.
Qed.

Lemma called_once e f nm :
  create_rc e = 0 ->
  let w := exec e ([Caller; Caller; Caller; Caller] ++ repeat Callee 7)%list
             (at_start (constructed f nm)) in
  calls w = 1%nat /\ trace w = prologue (spawned_tid e) nm.
Proof.
  intros Hrc. cbv zeta. rewrite exec_app.
  destruct (spawn_reaches_wait e f nm Hrc) as (Hc & Hk & Hab).
  pose proof (exec_inv e f nm [Caller; Caller; Caller; Caller] _
                (at_start_inv e f nm)) as I.
  cbv zeta in Hc, Hk, Hab.
  generalize dependent
    (exec e [Caller; Caller; Caller; Caller] (at_start (constructed f nm))).
  intros w Hc Hk Hab I.
  destruct (callee_runs e f nm 7 w I Hab) as (H1 & _ & _).
  { intros i Hi. rewrite Hk.
    do 7 (destruct i as [|i]; [reflexivity|]). lia. }
  pose proof (exec_inv e f nm (repeat Callee 7) w I) as I'.
  rewrite Hk in H1. cbn [Nat.iter nat_rect next_callee] in H1.
  generalize dependent (exec e (repeat Callee 7) w).
  intros w' H1 I'.
  rewrite (inv_calls _ _ _ _ I'), (inv_trace _ _ _ _ I'), H1.
  destruct f; cbn [caught trace_at firstn]; rewrite ?app_nil_r;
    split; reflexivity.
Qed.

(** The decimal conversions write no NUL byte, so a default name is its
    own C string. *)
Lemma utoa_c_str n : 0 <= n -> c_str (Stdio.utoa n) = Stdio.utoa n.
Proof.
  intros Hn. apply c_str_no_nul. unfold Stdio.utoa.
  rewrite list_ascii_of_string_of_list_ascii. intros Hin.
  apply in_map_iff in Hin. destruct Hin as (d & Hd & Hin).
  apply in_rev in Hin.
  pose proof (StdioFacts.digits_le_range 10 n Hn) as Hr.
  rewrite Forall_forall in Hr. specialize (Hr d Hin).
  unfold Stdio.digit in Hd. apply (f_equal nat_of_ascii) in Hd.
  rewrite nat_ascii_embedding in Hd by lia.
  change (nat_of_ascii Ascii.zero) with 0%nat in Hd. lia.
Qed.

Lemma default_name_c_str num :
  c_str ("Thread" ++ Stdio.fmt_d num) = "Thread" ++ Stdio.fmt_d num.
Proof.
  change (c_str ("Thread" ++ Stdio.fmt_d num))
    with ("Thread" ++ c_str (Stdio.fmt_d num)).
  f_equal. unfold Stdio.fmt_d.
  destruct (Z.ltb_spec num 0) as [L|L].
  - change (c_str (String "-" (Stdio.utoa (- num))))
      with (String "-" (c_str (Stdio.utoa (- num)))).
    rewrite utoa_c_str by lia. reflexivity.
  - now apply utoa_c_str.
Qed.

(** C3 (as the code has it).  For a Thread made by its constructor and
    any interleaving of [start()] with the new thread: the Thread's name
    is not empty (an empty given name was replaced by "Thread<n>" at
    construction) and the transfer record carries it, so the fallback of
    line 86 is never taken; the name shown is the Thread's name read as a
    C string, which is the whole name when that holds no NUL byte; what
    the trampoline has done is a prefix of "store the identity through
    [tid_], [countDown()] the latch, set [t_threadName] to the name shown,
    [prctl(PR_SET_NAME)] with it, call [func_]", followed once that is
    complete by events none of which is a call; [func_] is entered at
    most once; when the trampoline stands before the call, [tid_] is
    published, the latch is 0, [t_threadName] is the name shown and the
    kernel holds its first 15 bytes.  When creation succeeds, the run
    that gives the new thread seven statements has entered [func_]
    exactly once after exactly those steps. *)
Theorem trampoline_steps_in_order :
  forall (e : Env) (c : Z) (f : ThreadFunc) (name : string)
         (sched : list Actor),
    let t := snd (Thread_ctor c f name) in
    let w := exec e sched (at_start t) in
    let shown := c_str (name_ t) in
    let steps := [EvPublish (spawned_tid e); EvCountDown;
                  EvThreadName shown; EvPrctl shown; EvCall] in
    empty (name_ t) = false
    /\ (forall d, heap w = Some d ->
          detail.name_ d = name_ t /\ empty (detail.name_ d) = false)
    /\ (empty name = true -> shown = "Thread" ++ Stdio.fmt_d c)
    /\ (empty name = false -> shown = c_str name)
    /\ (~ In Ascii.zero (list_ascii_of_string name) -> shown = name_ t)
    /\ (exists n rest,
          trace w = (firstn n steps ++ rest)%list
          /\ (rest <> [] -> (5 <= n)%nat)
          /\ ~ In EvCall rest)
    /\ calls w = calls_of (trace w)
    /\ (calls w <= 1)%nat
    /\ (callee w = RunCall ->
        trace w = firstn 4 steps
        /\ tid_ (thread w) = spawned_tid e
        /\ count_ (latch_ (thread w)) = 0
        /\ CurrentThread.t_threadName (CurrentThread.tls (callee_self w))
           = shown
        /\ os_name w = substring 0 15 shown
        /\ calls w = 0%nat)
    /\ (create_rc e = 0 ->
        let w' := exec e ([Caller; Caller; Caller; Caller]
                          ++ repeat Callee 7)%list (at_start t) in
        calls w' = 1%nat /\ trace w' = steps).
Proof.
  intros e c f name sched.
  pose proof (started_inv e c f name sched) as I.
  pose proof (Thread_ctor_constructed c f name) as Ht.
  pose proof (Thread_ctor_name_nonempty c f name) as Hne.
  pose proof (display_name_nonempty _ Hne) as Hdn.
  pose proof (Thread_ctor_name c f name) as Hname.
  assert (Hpro : prologue (spawned_tid e)
                   (name_ (snd (Thread_ctor c f name)))
                 = [EvPublish (spawned_tid e); EvCountDown;
                    EvThreadName (c_str (name_ (snd (Thread_ctor c f name))));
                    EvPrctl (c_str (name_ (snd (Thread_ctor c f name))));
                    EvCall]).
  { unfold prologue. now rewrite Hdn. }
  cbv zeta.
  generalize dependent (exec e sched (at_start (snd (Thread_ctor c f name)))).
  intros w I.
  split; [assumption|].
  split; [|split; [|split; [|split; [|split; [|split; [|split; [|split]]]]]]].
  - intros d Hd. rewrite (inv_heap _ _ _ _ I) in Hd.
    assert (Hn : detail.name_ d = name_ (snd (Thread_ctor c f name))).
    { destruct (callee w); cbn [heap_at] in Hd;
        try (destruct (caller w)); try discriminate Hd;
        injection Hd as <-; reflexivity. }
    split; [exact Hn | now rewrite Hn].
  - intros E. rewrite Hname, E. apply default_name_c_str.
  - intros E. now rewrite Hname, E.
  - intros Hnul. rewrite Hname.
    destruct (empty name); [apply default_name_c_str|].
    now apply c_str_no_nul.
  - rewrite (inv_trace _ _ _ _ I), <- Hpro. apply trace_at_shape.
  - apply (inv_calls _ _ _ _ I).
  - rewrite (inv_calls _ _ _ _ I), (inv_trace _ _ _ _ I).
    apply calls_of_trace_at.
  - intros Hk. rewrite <- Hpro.
    pose proof (before_call_facts _ _ _ _ I Hk) as Hb.
    rewrite Hdn in Hb. exact Hb.
  - intros Hrc. rewrite <- Hpro, Ht. now apply called_once.
Qed.

(** C3 as stated fails: the first Thread of a process, constructed
    without a name and started, is shown as "Thread0" by step (c), to the
    program and to the kernel alike, not as "Thread". *)
Lemma unnamed_thread_is_not_displayed_as_Thread :
  let t := snd (Thread_ctor numCreated_initial Returns "") in
  let w := exec example_env
             ([Caller; Caller; Caller; Caller] ++ repeat Callee 6)%list
             (at_start t) in
  callee w = RunCall
  /\ CurrentThread.t_threadName (CurrentThread.tls (callee_self w))
     = "Thread0"
  /\ os_name w = "Thread0"
  /\ CurrentThread.t_threadName (CurrentThread.tls (callee_self w))
     <> "Thread"
  /\ os_name w <> "Thread".
Proof. vm_compute. repeat split; discriminate. Qed.

(** *** The lifecycle assertions *)

Lemma assert_passes_false b : NDEBUG b = false -> assert_passes b false = false.
Proof. unfold assert_passes. now intros ->. Qed.

(** C6.  In a build with assertions and a process that has not aborted:
    [start()] on a Thread whose [started_] is true aborts at its first
    statement; on one whose [started_] is false it passes the assertion
    and sets [started_]; [join()] with [started_] false aborts at line
    214; [join()] with [started_] and [joined_] both true aborts at line
    215; [join()] with [started_] true and [joined_] false passes both
    assertions and sets [joined_] before it reaches [pthread_join], after
    which another [join()] aborts; and once [start()] has returned on a
    constructed Thread, [started_] is true, [joined_] is false and a
    second [start()] aborts. *)
Theorem lifecycle_assertions :
  forall (e : Env) (w : World),
    NDEBUG (build e) = false -> aborted w = false ->
    (started_ (thread w) = true ->
     aborted (exec e [Caller] (call_start w)) = true)
    /\ (started_ (thread w) = false ->
        let w' := exec e [Caller; Caller] (call_start w) in
        aborted w' = false /\ started_ (thread w') = true
        /\ caller w' = StartNew)
    /\ (started_ (thread w) = false ->
        aborted (exec e [Caller] (call_join w)) = true)
    /\ (started_ (thread w) = true -> joined_ (thread w) = true ->
        aborted (exec e [Caller; Caller] (call_join w)) = true)
    /\ (started_ (thread w) = true -> joined_ (thread w) = false ->
        let w' := exec e [Caller; Caller; Caller] (call_join w) in
        aborted w' = false /\ joined_ (thread w') = true
        /\ caller w' = JoinPthreadJoin
        /\ aborted (exec e [Caller; Caller] (call_join w')) = true)
    /\ (forall c f name sched,
          w = exec e sched (at_start (snd (Thread_ctor c f name))) ->
          caller w = StartReturned ->
          started_ (thread w) = true /\ joined_ (thread w) = false
          /\ aborted (exec e [Caller] (call_start w)) = true).
Proof.
  intros e w Hd Hab.
  pose proof (assert_passes_false _ Hd) as Hfalse.
  assert (Hstart : started_ (thread w) = true ->
                   aborted (exec e [Caller] (call_start w)) = true).
  { intros Hs. destruct w as [t h cpc kpc me os n err ab tr]; cbn in *.
    subst ab. unfold caller_step; cbn -[assert_passes].
    rewrite Hs; cbn -[assert_passes]. now rewrite Hfalse. }
  split; [exact Hstart|]. split; [|split; [|split; [|split]]].
  - intros Hs. destruct w as [t h cpc kpc me os n err ab tr]; cbn in *.
    subst ab. unfold caller_step; cbn -[assert_passes].
    rewrite Hs; cbn -[assert_passes].
    rewrite assert_passes_true; cbn. repeat split.
  - intros Hs. destruct w as [t h cpc kpc me os n err ab tr]; cbn in *.
    subst ab. unfold caller_step; cbn -[assert_passes].
    now rewrite Hs, Hfalse.
  - intros Hs Hj. destruct w as [t h cpc kpc me os n err ab tr]; cbn in *.
    subst ab. unfold caller_step; cbn -[assert_passes].
    rewrite Hs, assert_passes_true; cbn -[assert_passes].
    rewrite Hj; cbn -[assert_passes]. now rewrite Hfalse.
  - intros Hs Hj. destruct w as [t h cpc kpc me os n err ab tr]; cbn in *.
    subst ab. unfold caller_step; cbn -[assert_passes].
    rewrite Hs, assert_passes_true; cbn -[assert_passes].
    rewrite Hj; cbn -[assert_passes].
    rewrite assert_passes_true; cbn -[assert_passes].
    rewrite Hs, assert_passes_true; cbn -[assert_passes].
    rewrite Hfalse. repeat split.
  - intros c f name sched -> Hc.
    pose proof (started_inv e c f name sched) as I.
    pose proof (inv_started _ _ _ _ I) as Hs. rewrite Hc in Hs.
    repeat split.
    + exact Hs.
    + apply (inv_joined _ _ _ _ I).
    + apply Hstart. exact Hs.
Qed.

(** A second [start()] on a Thread that was started and joined hits the
    assertion. *)
Lemma lifecycle_assertions_witness :
  aborted (exec example_env [Caller] (call_start joined_world)) = true.
Proof.
  exact (proj1 (lifecycle_assertions example_env joined_world
                  eq_refl eq_refl) eq_refl).
Defined.

(** *** Failure of pthread_create *)

Lemma create_failure_run e f nm :
  create_rc e <> 0 ->
  let final := exec e (repeat Caller 8) (at_start (constructed f nm)) in
  aborted final = true
  /\ started_ (thread final) = false
  /\ heap final = None
  /\ stderr final
     = ["Failed in pthread_create: " ++ errno_text e ++ newline]
  /\ callee final = NotSpawned
  /\ caller final = StartAbort.
Proof.
  intros Hrc. apply Z.eqb_neq in Hrc. cbv zeta.
  unfold at_start, constructed. cbn [repeat exec step].
  unfold caller_step; cbn -[assert_passes].
  rewrite !assert_passes_true, !Hrc; cbn.
  repeat split.
Qed.

Lemma create_failure_facts e f nm w :
  start_inv e f nm w -> create_rc e <> 0 ->
  caller w <> StartReturned
  /\ callee w = NotSpawned
  /\ calls w = 0%nat
  /\ (caller w = StartDelete ->
      started_ (thread w) = false /\ heap w <> None /\ stderr w = [])
  /\ (caller w = StartPerror ->
      started_ (thread w) = false /\ heap w = None /\ stderr w = [])
  /\ (caller w = StartAbort ->
      started_ (thread w) = false /\ heap w = None
      /\ stderr w
         = ["Failed in pthread_create: " ++ errno_text e ++ newline])
  /\ (aborted w = true -> caller w = StartAbort)
  /\ (stderr w <> [] -> caller w = StartAbort).
Proof.
  intros I Hrc. apply Z.eqb_neq in Hrc.
  pose proof (inv_pcs _ _ _ _ I) as Hp.
  assert (Hk : callee w = NotSpawned).
  { destruct (callee w); try reflexivity; cbn in Hp; rewrite Hrc in Hp;
      discriminate Hp. }
  pose proof (inv_trace _ _ _ _ I) as Ht. rewrite Hk in Ht. cbn in Ht.
  pose proof (inv_calls _ _ _ _ I) as Hcalls. rewrite Ht in Hcalls.
  pose proof (inv_started _ _ _ _ I) as Hs.
  pose proof (inv_heap _ _ _ _ I) as Hh. rewrite Hk in Hh.
  pose proof (inv_stderr _ _ _ _ I) as He. rewrite Ht in He.
  cbn [stderr_of flat_map] in He. rewrite app_nil_r in He.
  pose proof (inv_aborted _ _ _ _ I) as Hab. rewrite Ht in Hab.
  rewrite Hk in Hp.
  split; [|split; [|split; [|split; [|split; [|split; [|split]]]]]].
  - intros E. rewrite E in Hp. discriminate.
  - assumption.
  - assumption.
  - intros E. rewrite E in *. cbn in *. repeat split; congruence.
  - intros E. rewrite E in *. cbn in *. repeat split; congruence.
  - intros E. rewrite E in *. cbn in *. repeat split; congruence.
  - intros E. destruct (Hab E) as [H | [H | []]]; [assumption|].
    rewrite H in Hp. discriminate.
  - intros E. destruct (caller w); cbn in He; try congruence.
Qed.

(** C7.  When [pthread_create] fails on a Thread made by its
    constructor: the caller, run on its own, ends with the process
    aborted, [started_] false again, the transfer record deleted, one
    line "Failed in pthread_create: <message>" on stderr and no thread
    spawned; under every schedule [start()] never returns, no thread is
    spawned and [func_] is never entered; the flag is rolled back before
    the record is deleted, the record is deleted before the message is
    written, and whenever the process has aborted all three have
    happened. *)
Theorem failed_create_rolls_back_and_aborts :
  forall (e : Env) (c : Z) (f : ThreadFunc) (name : string)
         (sched : list Actor),
    create_rc e <> 0 ->
    let t := snd (Thread_ctor c f name) in
    let w := exec e sched (at_start t) in
    let final := exec e (repeat Caller 8) (at_start t) in
    let msg := "Failed in pthread_create: " ++ errno_text e ++ newline in
    (aborted final = true
     /\ started_ (thread final) = false
     /\ heap final = None
     /\ stderr final = [msg]
     /\ callee final = NotSpawned)
    /\ caller w <> StartReturned
    /\ callee w = NotSpawned
    /\ calls w = 0%nat
    /\ (caller w = StartDelete ->
        started_ (thread w) = false /\ heap w <> None /\ stderr w = [])
    /\ (caller w = StartPerror ->
        started_ (thread w) = false /\ heap w = None /\ stderr w = [])
    /\ (aborted w = true ->
        started_ (thread w) = false /\ heap w = None /\ stderr w = [msg]).
Proof.
  intros e c f name sched Hrc.
  pose proof (started_inv e c f name sched) as I.
  pose proof (Thread_ctor_constructed c f name) as Ht.
  cbv zeta.
  destruct (create_failure_run e f (name_ (snd (Thread_ctor c f name))) Hrc)
    as (F1 & F2 & F3 & F4 & F5 & _).
  rewrite <- Ht in F1, F2, F3, F4, F5.
  split; [repeat split; assumption|].
  generalize dependent (exec e sched (at_start (snd (Thread_ctor c f name)))).
  intros w I.
  destruct (create_failure_facts _ _ _ _ I Hrc)
    as (G1 & G2 & G3 & G4 & G5 & G6 & G7 & _).
  repeat split; try assumption; try (now apply G4); try (now apply G5);
    now apply G6, G7.
Qed.

(** [pthread_create] answers 11 ([EAGAIN]) in a fresh process. *)
Lemma failed_create_rolls_back_and_aborts_witness :
  let e := mkEnv (mkBuild false false) 11 1 4242 32 "unknown"
                 "Resource temporarily unavailable" 0 in
  let final := exec e (repeat Caller 8)
                 (at_start (snd (Thread_ctor numCreated_initial Returns ""))) in
  aborted final = true
  /\ started_ (thread final) = false
  /\ heap final = None
  /\ stderr final
     = ["Failed in pthread_create: Resource temporarily unavailable"
        ++ newline]
  /\ callee final = NotSpawned.
Proof.
  refine (proj1 (failed_create_rolls_back_and_aborts
                   (mkEnv (mkBuild false false) 11 1 4242 32 "unknown"
                          "Resource temporarily unavailable" 0)
                   numCreated_initial Returns "" [] _)).
  cbn. discriminate.
Defined.

(** *** What the trampoline does with the user function's outcome *)





(* ================================================================== *)
(** ** Further properties: CurrentThread *)
(* ================================================================== *)

(** X1.  The [timespec] that [sleepUsec] hands to [nanosleep] stands for
    exactly [usec] microseconds; for [usec >= 0] it is one [nanosleep]
    accepts, with a whole number of microseconds in [tv_nsec]; for
    [usec < 0] it is one [nanosleep] rejects. *)
Theorem sleepUsec_timespec_exact :
  forall usec : Z,
    let ts := sleepUsec_timespec usec in
    tv_sec ts * 1000000000 + tv_nsec ts = usec * 1000
    /\ (0 <= usec ->
        timespec_valid ts /\ tv_nsec ts mod 1000 = 0
        /\ tv_sec ts * 1000000 <= usec < (tv_sec ts + 1) * 1000000)
    /\ (usec < 0 -> ~ timespec_valid ts).
Proof.
  intros usec. unfold sleepUsec_timespec, timespec_valid, kMicroSecondsPerSecond.
  cbn [tv_sec tv_nsec].
  pose proof (Z.quot_rem' usec 1000000) as Hqr.
  split; [lia|]. split.
  - intros Hpos.
    pose proof (Z.rem_bound_pos usec 1000000 Hpos ltac:(lia)) as Hr.
    pose proof (Z.quot_pos usec 1000000 Hpos ltac:(lia)) as Hq.
    repeat split; try lia.
    apply Z_mod_mult.
  - intros Hneg [Hs Hn].
    pose proof (Z.rem_nonpos usec 1000000 ltac:(lia) ltac:(lia)) as Hr.
    assert (Z.rem usec 1000000 = 0) by lia.
    assert (Z.quot usec 1000000 < 0) by lia.
    lia.
Qed.

(** X2.  [tid()] computes the identity once: with a non-zero value in
    the cache it returns that value and changes nothing, whatever the
    kernel would answer; with an empty cache it returns the kernel's id,
    keeps the thread name, and a second call returns the same value and
    changes nothing more. *)
Theorem tid_is_computed_once :
  forall me : CurrentThread.Self,
    (CurrentThread.t_cachedTid (CurrentThread.tls me) <> 0 ->
     CurrentThread.tid me
     = (CurrentThread.t_cachedTid (CurrentThread.tls me), me))
    /\ (CurrentThread.t_cachedTid (CurrentThread.tls me) = 0 ->
        fst (CurrentThread.tid me) = CurrentThread.kernel_tid me
        /\ CurrentThread.t_threadName
             (CurrentThread.tls (snd (CurrentThread.tid me)))
           = CurrentThread.t_threadName (CurrentThread.tls me))
    /\ CurrentThread.tid (snd (CurrentThread.tid me))
       = (fst (CurrentThread.tid me), snd (CurrentThread.tid me)).
Proof.
  intros me. split; [|split].
  - intros H. unfold CurrentThread.tid. apply Z.eqb_neq in H. now rewrite H.
  - intros H. split.
    + rewrite tid_value, H. reflexivity.
    + apply tid_threadName.
  - destruct me as [k [c buf n nm]].
    unfold CurrentThread.tid, CurrentThread.cacheTid; cbn.
    destruct (Z.eqb_spec c 0) as [->|Hc]; cbn.
    + destruct (Z.eqb_spec k 0) as [->|Hk]; cbn; [reflexivity|].
      reflexivity.
    + apply Z.eqb_neq in Hc. rewrite Hc. reflexivity.
Qed.

(** X3.  In the child of a [fork], once [afterFork] has run, [tid()]
    is the child's own id, the cache is coherent and the thread is named
    "main", whatever the forking thread had cached; without the handler
    a forking thread that had cached its id would go on answering with
    the parent's id. *)
Theorem afterFork_refreshes_the_identity :
  forall (child_pid : Z) (me : CurrentThread.Self),
    let c := forked_child child_pid me in
    fst (CurrentThread.tid c) = child_pid
    /\ CurrentThread.coherent c
    /\ CurrentThread.kernel_tid c = child_pid
    /\ CurrentThread.t_threadName (CurrentThread.tls c) = "main"
    /\ (CurrentThread.t_cachedTid (CurrentThread.tls me) <> 0 ->
        fst (CurrentThread.tid (fork_copy child_pid me))
        = CurrentThread.t_cachedTid (CurrentThread.tls me)).
Proof.
  intros child_pid me c.
  assert (Hco : CurrentThread.coherent c).
  { unfold c, forked_child, CurrentThread.afterFork.
    apply tid_keeps_coherent. now left. }
  assert (Hk : CurrentThread.kernel_tid c = child_pid).
  { unfold c, forked_child, CurrentThread.afterFork.
    now rewrite tid_kernel_tid. }
  split; [|split; [|split; [|split]]].
  - rewrite tid_coherent by assumption. assumption.
  - assumption.
  - assumption.
  - unfold c, forked_child, CurrentThread.afterFork.
    now rewrite tid_threadName.
  - intros H. rewrite tid_value. cbn.
    apply Z.eqb_neq in H. now rewrite H.
Qed.

(** X4.  For a thread whose cache is coherent, [isMainThread()] answers
    true exactly when the kernel's id of the thread is the process id,
    and leaves the cache coherent.  The constructor of
    [ThreadNameInitializer], on whichever thread runs it, names that
    thread "main" and caches its id, and keeps the kernel's id; after it
    [isMainThread()] is still true exactly when that thread's kernel id
    is the process id. *)
Theorem isMainThread_compares_kernel_id :
  forall (pid : Z) (me : CurrentThread.Self),
    CurrentThread.coherent me ->
    (fst (isMainThread pid me) = true <-> CurrentThread.kernel_tid me = pid)
    /\ CurrentThread.coherent (snd (isMainThread pid me))
    /\ CurrentThread.kernel_tid (snd (isMainThread pid me))
       = CurrentThread.kernel_tid me
    /\ (let m := ThreadNameInitializer me in
        CurrentThread.t_threadName (CurrentThread.tls m) = "main"
        /\ CurrentThread.kernel_tid m = CurrentThread.kernel_tid me
        /\ CurrentThread.t_cachedTid (CurrentThread.tls m)
           = CurrentThread.kernel_tid me
        /\ CurrentThread.coherent m
        /\ (fst (isMainThread pid m) = true
            <-> CurrentThread.kernel_tid me = pid)).
Proof.
  assert (Hmain : forall pid me, CurrentThread.coherent me ->
            (fst (isMainThread pid me) = true
             <-> CurrentThread.kernel_tid me = pid)
            /\ CurrentThread.coherent (snd (isMainThread pid me))
            /\ CurrentThread.kernel_tid (snd (isMainThread pid me))
               = CurrentThread.kernel_tid me).
  { intros pid me Hco.
    assert (Hfst : fst (isMainThread pid me)
                   = (fst (CurrentThread.tid me) =? pid)).
    { unfold isMainThread. destruct (CurrentThread.tid me); reflexivity. }
    assert (Hsnd : snd (isMainThread pid me) = snd (CurrentThread.tid me)).
    { unfold isMainThread. destruct (CurrentThread.tid me); reflexivity. }
    split; [|split].
    - rewrite Hfst, tid_coherent by assumption. apply Z.eqb_eq.
    - rewrite Hsnd. now apply tid_keeps_coherent.
    - rewrite Hsnd. apply tid_kernel_tid. }
  intros pid me Hco.
  destruct (Hmain pid me Hco) as (M1 & M2 & M3).
  split; [exact M1|]. split; [exact M2|]. split; [exact M3|].
  cbv zeta.
  assert (Hc : CurrentThread.coherent
                 (CurrentThread.set_threadName "main" me)).
  { exact Hco. }
  assert (Hk : CurrentThread.kernel_tid (ThreadNameInitializer me)
               = CurrentThread.kernel_tid me).
  { unfold ThreadNameInitializer. now rewrite tid_kernel_tid. }
  assert (Hc' : CurrentThread.coherent (ThreadNameInitializer me)).
  { unfold ThreadNameInitializer. now apply tid_keeps_coherent. }
  split; [|split; [|split; [|split]]].
  - unfold ThreadNameInitializer. now rewrite tid_threadName.
  - exact Hk.
  - unfold ThreadNameInitializer.
    rewrite tid_cached, tid_coherent by assumption. reflexivity.
  - exact Hc'.
  - rewrite <- Hk. apply (Hmain pid _ Hc').
Qed.

(** A thread other than the main one that asks before anything else. *)
Lemma isMainThread_compares_kernel_id_witness :
  (fst (isMainThread 4242 (CurrentThread.fresh 4243 32 "worker")) = true
   -> CurrentThread.kernel_tid (CurrentThread.fresh 4243 32 "worker") = 4242)
  /\ CurrentThread.t_threadName
       (CurrentThread.tls
          (ThreadNameInitializer (CurrentThread.fresh 4243 32 "worker")))
     = "main".
Proof.
  pose proof (isMainThread_compares_kernel_id 4242
                (CurrentThread.fresh 4243 32 "worker") (or_introl eq_refl))
    as H.
  split; [apply (proj1 H) | apply (proj2 (proj2 (proj2 H)))].
Defined.

(** *** The text form of the identity *)

Section TidString.
Import Stdio StdioFacts.

Lemma digits_le_length_upper fuel : forall n k,
  0 <= n < 10 ^ Z.of_nat k -> (1 <= k)%nat ->
  (List.length (digits_le fuel n) <= k)%nat.
Proof.
  induction fuel as [|f IH]; intros n k Hn Hk; cbn [digits_le List.length];
    [lia|].
  destruct (Z.eqb_spec (n / 10) 0) as [E|E]; cbn [List.length]; [lia|].
  destruct k as [|[|k]]; try lia.
  - exfalso. apply E. apply Z.div_small. cbn in Hn. lia.
  - specialize (IH (n / 10) (S k)).
    assert (0 <= n / 10 < 10 ^ Z.of_nat (S k)).
    { split; [apply Z.div_pos; lia|].
      apply Z.div_lt_upper_bound; [lia|].
      replace (Z.of_nat (S (S k))) with (1 + Z.of_nat (S k)) in Hn by lia.
      rewrite Z.pow_add_r in Hn by lia. lia. }
    specialize (IH H ltac:(lia)). lia.
Qed.

Lemma digits_le_length_lower fuel : forall n k,
  10 ^ Z.of_nat k <= n -> (k < fuel)%nat ->
  (k + 1 <= List.length (digits_le fuel n))%nat.
Proof.
  induction fuel as [|f IH]; intros n k Hn Hk; [lia|].
  cbn [digits_le List.length].
  destruct k as [|k]; [lia|].
  assert (Hq : 10 ^ Z.of_nat k <= n / 10).
  { apply Z.div_le_lower_bound; [lia|].
    replace (Z.of_nat (S k)) with (1 + Z.of_nat k) in Hn by lia.
    rewrite Z.pow_add_r in Hn by lia. lia. }
  assert (0 < 10 ^ Z.of_nat k) by (apply Z.pow_pos_nonneg; lia).
  destruct (Z.eqb_spec (n / 10) 0) as [E|E]; [lia|].
  specialize (IH (n / 10) k Hq ltac:(lia)). lia.
Qed.

Lemma utoa_length_eq n :
  String.length (utoa n) = List.length (digits_le 10 n).
Proof.
  unfold utoa. now rewrite string_of_list_ascii_length, length_map, length_rev.
Qed.

Lemma spaces_length n : String.length (spaces n) = n.
Proof. induction n; cbn; congruence. Qed.

Lemma fmt_5d_length v :
  String.length (fmt_5d v) = Nat.max 5 (String.length (fmt_d v)).
Proof.
  unfold fmt_5d. cbv zeta. rewrite append_length, spaces_length. lia.
Qed.

Lemma substring_0_length n : forall s,
  String.length (substring 0 n s) = Nat.min n (String.length s).
Proof.
  induction n as [|n IH]; intros [|c s]; cbn; try reflexivity.
  now rewrite IH.
Qed.

(** X5.  The first [tid()] of a thread renders its id with ["%5d "]:
    [t_tidStringLength] is the length of the whole text, between 6 and
    12, whatever the buffer holds; the buffer keeps its capacity and
    holds the text cut to one character less than the capacity, so the
    whole text whenever that fits; the text has 6 characters exactly for
    ids up to 99999 and more for larger ids. *)
Theorem cacheTid_renders_the_identity :
  forall me : CurrentThread.Self,
    CurrentThread.t_cachedTid (CurrentThread.tls me) = 0 ->
    let v := CurrentThread.kernel_tid me in
    let text := fmt_5d v ++ " " in
    let t' := CurrentThread.tls (CurrentThread.cacheTid me) in
    let buf := CurrentThread.t_tidString t' in
    CurrentThread.t_tidStringLength t' = Z.of_nat (String.length text)
    /\ 6 <= CurrentThread.t_tidStringLength t' <= 12
    /\ CurrentThread.capacity buf
       = CurrentThread.capacity
           (CurrentThread.t_tidString (CurrentThread.tls me))
    /\ String.length (CurrentThread.content buf)
       = Nat.min (CurrentThread.capacity buf - 1) (String.length text)
    /\ ((String.length text < CurrentThread.capacity buf)%nat ->
        CurrentThread.content buf = text)
    /\ (0 <= v <= 99999 -> CurrentThread.t_tidStringLength t' = 6)
    /\ (100000 <= v -> 7 <= CurrentThread.t_tidStringLength t').
Proof.
  intros me H0 v text t' buf.
  assert (Hlen5 : String.length text
                  = (Nat.max 5 (String.length (fmt_d v)) + 1)%nat).
  { unfold text. now rewrite append_length, fmt_5d_length. }
  pose proof (fmt_d_length v) as Hd.
  assert (Ht : t' = CurrentThread.mkTLS v
                 (CurrentThread.mkCharBuf
                    (CurrentThread.capacity
                       (CurrentThread.t_tidString (CurrentThread.tls me)))
                    (substring 0
                       (CurrentThread.capacity
                          (CurrentThread.t_tidString (CurrentThread.tls me))
                        - 1) text))
                 (Z.of_nat (String.length text))
                 (CurrentThread.t_threadName (CurrentThread.tls me))).
  { unfold t', CurrentThread.cacheTid. rewrite H0. reflexivity. }
  unfold buf. rewrite Ht. cbn [CurrentThread.t_tidStringLength
    CurrentThread.t_tidString CurrentThread.capacity CurrentThread.content].
  split; [reflexivity|]. split; [lia|]. split; [reflexivity|].
  split; [apply substring_0_length|]. split; [|split].
  - intros Hfit. apply substring_all. lia.
  - intros Hv. rewrite Hlen5.
    assert (String.length (fmt_d v) <= 5)%nat; [|lia].
    unfold fmt_d. destruct (Z.ltb_spec v 0); [lia|].
    rewrite utoa_length_eq. apply digits_le_length_upper; [cbn; lia | lia].
  - intros Hv. rewrite Hlen5.
    assert (6 <= String.length (fmt_d v))%nat; [|lia].
    unfold fmt_d. destruct (Z.ltb_spec v 0); [lia|].
    rewrite utoa_length_eq.
    apply (digits_le_length_lower 10 v 5); [cbn; lia | lia].
Qed.

End TidString.

Lemma cacheTid_renders_the_identity_witness :
  CurrentThread.t_tidStringLength
    (CurrentThread.tls
       (CurrentThread.cacheTid (CurrentThread.fresh 4194304 4 "worker")))
  = Z.of_nat (String.length (Stdio.fmt_5d 4194304 ++ " ")).
Proof.
  exact (proj1 (cacheTid_renders_the_identity
                  (CurrentThread.fresh 4194304 4 "worker") eq_refl)).
Defined.

(* ================================================================== *)
(** ** Further properties: MutexLock and MutexLockGuard *)
(* ================================================================== *)

Lemma guard_run_own b ktid i : forall k s p,
  guard_inv ktid s -> pc (contenders s i) = p -> p <> Outside ->
  (match p with Acquired => 3 | InScope => 2 | _ => 1 end = k)%nat ->
  mutex_ (mtx (guard_run b (repeat i k) s)) = Unlocked
  /\ pc (contenders (guard_run b (repeat i k) s) i) = Outside.
Proof.
  induction k as [|k IH]; intros s p Hinv Hpc Hp Hk.
  - destruct p; discriminate.
  - cbn [repeat guard_run].
    destruct (guard_step_moves b ktid s i Hinv) as (s' & Hstep & Hnext & Hrel).
    { left. congruence. }
    rewrite Hstep. rewrite Hpc in Hnext, Hrel.
    pose proof (guard_step_inv b ktid i s s' Hinv Hstep) as Hinv'.
    destruct p; try contradiction; cbn in Hnext.
    + apply (IH s' InScope); try assumption; [discriminate | lia].
    + apply (IH s' Cleared); try assumption; [discriminate | lia].
    + injection Hk as <-. cbn. split; [now apply Hrel | assumption].
Qed.

(** X6.  Threads that use the mutex only through [MutexLockGuard], in
    any interleaving and any build: no check of the mutex ever fails, the
    mutex is always initialised and not destroyed, a thread inside a
    guard can always take its next statement, a free mutex can be taken
    by any thread, a thread outside waits exactly while the mutex is
    held, some thread can always move, and the thread inside a guard
    frees the mutex within three statements of its own. *)
Theorem guard_users_never_abort_nor_deadlock :
  forall (b : Build) (ktid : nat -> Z) (bufsize : nat) (name0 : string)
         (sched : list nat),
    let s := guard_run b sched (guard_init ktid bufsize name0) in
    crashed s = false
    /\ (mutex_ (mtx s) = Unlocked \/ mutex_ (mtx s) = Locked)
    /\ (forall i, pc (contenders s i) <> Outside ->
          exists s', guard_step b i s = Some s')
    /\ (forall i, mutex_ (mtx s) = Unlocked ->
          exists s', guard_step b i s = Some s'
                     /\ pc (contenders s' i) = Acquired)
    /\ (forall i, pc (contenders s i) = Outside ->
          mutex_ (mtx s) = Locked -> guard_step b i s = None)
    /\ (exists i, guard_step b i s <> None)
    /\ (forall i, pc (contenders s i) <> Outside ->
          exists k, (k <= 3)%nat
            /\ mutex_ (mtx (guard_run b (repeat i k) s)) = Unlocked
            /\ pc (contenders (guard_run b (repeat i k) s) i) = Outside).
Proof.
  intros b ktid bufsize name0 sched s.
  assert (Hinv : guard_inv ktid s) by apply guard_run_inv, guard_init_inv.
  assert (Hmoves : forall i, pc (contenders s i) <> Outside ->
                     exists s', guard_step b i s = Some s').
  { intros i Hi.
    destruct (guard_step_moves b ktid s i Hinv (or_introl Hi))
      as (s' & Hs & _). now exists s'. }
  assert (Hfree : forall i, mutex_ (mtx s) = Unlocked ->
                    exists s', guard_step b i s = Some s'
                               /\ pc (contenders s' i) = Acquired).
  { intros i Hu.
    destruct (guard_step_moves b ktid s i Hinv (or_intror Hu))
      as (s' & Hs & Hn & _).
    exists s'. split; [assumption|].
    destruct Hinv as (_ & _ & Hm). rewrite Hu in Hm. destruct Hm as [_ Hall].
    now rewrite Hall in Hn. }
  split; [apply Hinv|]. split; [|split; [exact Hmoves|split; [exact Hfree|]]].
  - destruct Hinv as (_ & _ & Hm).
    destruct (mutex_ (mtx s)); try contradiction; tauto.
  - split; [|split].
    + intros i Hi Hl. unfold guard_step.
      destruct (crashed s); [reflexivity|]. rewrite Hi.
      now rewrite (lock_acquire_locked b _ Hl).
    + pose proof Hinv as (_ & _ & Hm).
      destruct (mutex_ (mtx s)) eqn:Hmu; try contradiction.
      * destruct (Hfree 0%nat eq_refl) as (s' & Hs & _).
        exists 0%nat. rewrite Hs. discriminate.
      * destruct Hm as (k & Hk & _).
        destruct (Hmoves k Hk) as (s' & Hs).
        exists k. rewrite Hs. discriminate.
    + intros i Hi.
      exists (match pc (contenders s i) with
              | Acquired => 3 | InScope => 2 | _ => 1 end)%nat.
      split; [destruct (pc (contenders s i)); lia|].
      now apply (guard_run_own b ktid i _ s (pc (contenders s i))).
Qed.

(** X7.  With distinct non-zero thread ids, in any interleaving of
    threads using [MutexLockGuard]: [isLockedByThisThread()] answers true
    exactly for the thread that has passed [assignHolder()] and not yet
    [unassignHolder()]; [holder_] is non-zero exactly when there is such a
    thread; with assertions compiled in, [assertLocked()] passes for that
    thread and fails for any other. *)
Theorem isLockedByThisThread_exact :
  forall (b : Build) (ktid : nat -> Z) (bufsize : nat) (name0 : string)
         (sched : list nat) (i : nat),
    (forall j k, ktid j = ktid k -> j = k) ->
    (forall j, ktid j <> 0) ->
    let s := guard_run b sched (guard_init ktid bufsize name0) in
    let me := self (contenders s i) in
    (fst (isLockedByThisThread me (mtx s)) = true
     <-> pc (contenders s i) = InScope)
    /\ (holder_ (mtx s) <> 0 <-> exists j, pc (contenders s j) = InScope)
    /\ (NDEBUG b = false ->
        (pc (contenders s i) = InScope ->
         assertLocked b me (mtx s) = Done (snd (CurrentThread.tid me)))
        /\ (pc (contenders s i) <> InScope ->
            assertLocked b me (mtx s) = Fatal (snd (CurrentThread.tid me)))).
Proof.
  intros b ktid bufsize name0 sched i Hinj Hnz s me.
  assert (Hinv : guard_inv ktid s) by apply guard_run_inv, guard_init_inv.
  pose proof Hinv as (_ & Hself & Hm).
  destruct (Hself i) as [Hkt Hco]. fold me in Hkt, Hco.
  assert (Hlocked : fst (isLockedByThisThread me (mtx s))
                    = (holder_ (mtx s) =? ktid i)).
  { unfold isLockedByThisThread.
    pose proof (tid_coherent me Hco) as Ht.
    destruct (CurrentThread.tid me) as [v me']. cbn [fst] in *. congruence. }
  assert (Hiff : holder_ (mtx s) = ktid i <-> pc (contenders s i) = InScope).
  { split.
    - intros Hh. destruct (mutex_ (mtx s)); try contradiction.
      + destruct Hm as [H0 _]. specialize (Hnz i). congruence.
      + destruct Hm as (k & Hk & Hothers & Hhk).
        destruct (pc (contenders s k)) eqn:Hpk;
          try (specialize (Hnz i); congruence).
        assert (k = i) by (apply Hinj; congruence). now subst k.
    - intros Hi. destruct (guard_inv_inside ktid s i Hinv) as (_ & _ & Hh);
        [rewrite Hi; discriminate|].
      now rewrite Hi in Hh. }
  split; [|split].
  - rewrite Hlocked, Z.eqb_eq. exact Hiff.
  - split.
    + intros Hh. destruct (mutex_ (mtx s)); try contradiction.
      * destruct Hm as [H0 _]. contradiction.
      * destruct Hm as (k & Hk & Hothers & Hhk). exists k.
        destruct (pc (contenders s k)); try contradiction; reflexivity.
    + intros [j Hj].
      destruct (guard_inv_inside ktid s j Hinv) as (_ & _ & Hh);
        [rewrite Hj; discriminate|].
      rewrite Hj in Hh. rewrite Hh. apply Hnz.
  - intros Hd.
    assert (Hal : assertLocked b me (mtx s)
                  = if fst (isLockedByThisThread me (mtx s))
                    then Done (snd (CurrentThread.tid me))
                    else Fatal (snd (CurrentThread.tid me))).
    { unfold assertLocked, isLockedByThisThread, assert_passes.
      destruct (CurrentThread.tid me) as [v me']. cbn [fst snd].
      rewrite Hd. reflexivity. }
    rewrite Hal, Hlocked. split.
    + intros Hi. apply Hiff in Hi. apply Z.eqb_eq in Hi. now rewrite Hi.
    + intros Hi. destruct (Z.eqb_spec (holder_ (mtx s)) (ktid i)) as [E|E];
        [|reflexivity].
      apply Hiff in E. contradiction.
Qed.

Lemma isLockedByThisThread_exact_witness :
  let s := guard_run (mkBuild false false) [0; 0; 1]%nat
             (guard_init (fun j => 100 + Z.of_nat j) 32 "main") in
  fst (isLockedByThisThread (self (contenders s 1%nat)) (mtx s)) = true
  <-> pc (contenders s 1%nat) = InScope.
Proof.
  refine (proj1 (isLockedByThisThread_exact (mkBuild false false)
                   (fun j => 100 + Z.of_nat j) 32 "main" [0; 0; 1]%nat 1%nat
                   _ _)).
  - intros j k H. lia.
  - intros j. lia.
Defined.

(** X8.  A [MutexLockGuard] block entered on a free mutex whose body
    leaves the mutex locked ends with the mutex unlocked and [holder_]
    zero, on normal exit and on an exception alike, and hands on the
    body's way out; entered on a mutex that is held (the same thread
    taking it twice) it blocks in the constructor. *)
Theorem MutexLockGuard_scope_releases :
  forall (b : Build)
         (body : CurrentThread.Self -> MutexLock ->
                 CurrentThread.Self * MutexLock * Exit)
         (me : CurrentThread.Self) (m : MutexLock)
         (me2 : CurrentThread.Self) (m2 : MutexLock) (how : Exit),
    mutex_ m = Unlocked ->
    body (snd (CurrentThread.tid me))
         (mkMutexLock Locked (fst (CurrentThread.tid me))) = (me2, m2, how) ->
    mutex_ m2 = Locked ->
    MutexLockGuard_scope b body me m
    = Done (me2, mkMutexLock Unlocked 0, how)
    /\ MutexLockGuard_ctor b me2 m2 = Blocked
    /\ MutexLockGuard_scope b body me2 m2 = Blocked.
Proof.
  intros b body me m me2 m2 how Hu Hbody Hl.
  assert (Hctor : MutexLockGuard_ctor b me m
                  = Done (snd (CurrentThread.tid me),
                          mkMutexLock Locked (fst (CurrentThread.tid me)))).
  { unfold MutexLockGuard_ctor, lock, lock_assign.
    rewrite (lock_acquire_unlocked b m Hu). unfold assignHolder.
    destruct (CurrentThread.tid me); reflexivity. }
  assert (Hblocked : MutexLockGuard_ctor b me2 m2 = Blocked).
  { unfold MutexLockGuard_ctor, lock. now rewrite lock_acquire_locked. }
  split; [|split].
  - unfold MutexLockGuard_scope. rewrite Hctor, Hbody.
    unfold MutexLockGuard_dtor, unlock, unlock_clear, unassignHolder.
    rewrite unlock_release_locked by (cbn; assumption). reflexivity.
  - exact Hblocked.
  - unfold MutexLockGuard_scope. now rewrite Hblocked.
Qed.

Lemma MutexLockGuard_scope_releases_witness :
  MutexLockGuard_scope (mkBuild true false)
    (fun me m => (me, m, ByException))
    (CurrentThread.fresh 17 32 "main") (mkMutexLock Unlocked 0)
  = Done (snd (CurrentThread.tid (CurrentThread.fresh 17 32 "main")),
          mkMutexLock Unlocked 0, ByException).
Proof.
  exact (proj1 (MutexLockGuard_scope_releases (mkBuild true false)
                  (fun me m => (me, m, ByException))
                  (CurrentThread.fresh 17 32 "main") (mkMutexLock Unlocked 0)
                  _ _ ByException eq_refl eq_refl eq_refl)).
Defined.

(* ================================================================== *)
(** ** Further properties: Thread and the trampoline *)
(* ================================================================== *)

(** A statement of the spawned thread runs only in a process that has
    not aborted, from a position that is not final. *)
Lemma callee_step_some e w w' :
  callee_step e w = Some w' ->
  aborted w = false /\ callee_final (callee w) = false.
Proof.
  unfold callee_step. destruct (aborted w); [discriminate|].
  intros H. split; [reflexivity|].
  destruct (callee w) as [| | | | | | | | |ex k|ex| | | |]; try reflexivity;
    try discriminate H.
  destruct (heap w) as [d|]; [|discriminate H].
    destruct ex as [a b0|a|]; [| |reflexivity];
      do 5 (destruct k as [|k]; [first [reflexivity | discriminate H]|]);
      discriminate H.
Qed.

Lemma next_callee_signalled f k :
  signalled k = true -> signalled (next_callee f k) = true.
Proof.
  destruct k as [| | | | | | | | |ex n|ex| | | |]; cbn; try congruence;
    try (destruct f; reflexivity).
  intros _. destruct ex; try reflexivity.
  destruct n as [|[|[|n]]]; reflexivity.
Qed.

Lemma caller_step_callee e f nm w w' :
  start_inv e f nm w -> caller_step e w = Some w' ->
  callee w' = callee w \/ (callee w = NotSpawned /\ callee w' = RunPublish).
Proof.
  intros I H.
  pose proof (inv_pcs _ _ _ _ I) as Hp.
  unfold caller_step in H.
  destruct (aborted w); [discriminate|].
  destruct (caller w) eqn:Hc;
    repeat match type of H with
           | context [if ?c then _ else _] => destruct c
           | context [match callee w with _ => _ end] => destruct (callee w) eqn:Hk
           end;
    try discriminate H; injection H as <-;
    try (left; reflexivity); try (left; exact Hk).
  right. split; [|reflexivity].
  destruct (callee w); try reflexivity; cbn in Hp;
    rewrite andb_false_r in Hp; discriminate.
Qed.

Lemma step_keeps_signalled e f nm a w w' :
  start_inv e f nm w -> step e a w = Some w' ->
  signalled (callee w) = true -> signalled (callee w') = true.
Proof.
  intros I H Hs. destruct a; cbn [step] in H.
  - destruct (caller_step_callee e f nm w w' I H) as [E | [E _]].
    + now rewrite E.
    + rewrite E in Hs. discriminate.
  - destruct (callee_step_some e w w' H) as [Hab Hfin].
    destruct (callee_progress e f nm w I Hab Hfin) as (w'' & H' & Hk & _).
    assert (w'' = w') by congruence. subst w''.
    rewrite Hk. now apply next_callee_signalled.
Qed.

Lemma exec_keeps_signalled e f nm sched : forall w,
  start_inv e f nm w -> signalled (callee w) = true ->
  signalled (callee (exec e sched w)) = true.
Proof.
  induction sched as [|a rest IH]; intros w I Hs; cbn [exec]; [assumption|].
  destruct (step e a w) as [w'|] eqn:E.
  - apply IH; [eapply step_inv | eapply step_keeps_signalled]; eassumption.
  - now apply IH.
Qed.

Lemma handler_events_no_countdown ex nm n :
  filter is_countdown (firstn n (handler_events ex nm)) = [].
Proof.
  destruct ex; do 6 (destruct n as [|n]; [reflexivity|]);
    cbn [handler_events firstn]; rewrite ?firstn_nil; reflexivity.
Qed.

Lemma countdowns_of_trace_at ktid nm k :
  List.length (filter is_countdown (trace_at ktid nm k))
  = if signalled k then 1%nat else 0%nat.
Proof.
  destruct k; cbn [trace_at signalled]; try reflexivity.
  - rewrite filter_app, length_app, handler_events_no_countdown. reflexivity.
  - rewrite filter_app, length_app, <- (firstn_all (handler_events e nm)),
      handler_events_no_countdown. reflexivity.
Qed.

Lemma in_countdown_iff tr :
  In EvCountDown tr <-> (1 <= List.length (filter is_countdown tr))%nat.
Proof.
  split.
  - intros Hin.
    assert (Hf : In EvCountDown (filter is_countdown tr))
      by (apply filter_In; now split).
    destruct (filter is_countdown tr); [contradiction | cbn; lia].
  - intros Hlen. destruct (filter is_countdown tr) as [|ev l] eqn:E;
      [cbn in Hlen; lia|].
    assert (Hin : In ev (filter is_countdown tr)) by (rewrite E; now left).
    apply filter_In in Hin. destruct Hin as [Hin Hev].
    destruct ev; try discriminate Hev. exact Hin.
Qed.

(** X9.  In every interleaving of [start()] and the trampoline the
    latch counts 1 or 0; it is 0 exactly when the trampoline's
    [countDown()] has run; that statement runs at most once; and once
    the latch is 0, so that [wait()] returns, it stays so. *)
Theorem latch_is_signalled_exactly_once :
  forall (e : Env) (c : Z) (f : ThreadFunc) (name : string)
         (sched more : list Actor),
    let t := snd (Thread_ctor c f name) in
    let w := exec e sched (at_start t) in
    let later := exec e more w in
    (count_ (latch_ (thread w)) = 1 \/ count_ (latch_ (thread w)) = 0)
    /\ (count_ (latch_ (thread w)) = 0 <-> In EvCountDown (trace w))
    /\ (List.length (filter is_countdown (trace w)) <= 1)%nat
    /\ (count_ (latch_ (thread w)) = 0 ->
        count_ (latch_ (thread later)) = 0)
    /\ (wait_returns (latch_ (thread w)) = true ->
        wait_returns (latch_ (thread later)) = true).
Proof.
  intros e c f name sched more.
  pose proof (started_inv e c f name sched) as I.
  cbv zeta.
  generalize dependent (exec e sched (at_start (snd (Thread_ctor c f name)))).
  intros w I.
  pose proof (exec_inv e f _ more w I) as I'.
  pose proof (exec_keeps_signalled e f _ more w I) as Hmono.
  generalize dependent (exec e more w). intros w2 I' Hmono.
  pose proof (inv_latch _ _ _ _ I) as Hl.
  pose proof (inv_latch _ _ _ _ I') as Hl'.
  pose proof (countdowns_of_trace_at (spawned_tid e)
                (name_ (snd (Thread_ctor c f name))) (callee w)) as Hcd.
  rewrite <- (inv_trace _ _ _ _ I) in Hcd.
  assert (Hkeep : count_ (latch_ (thread w)) = 0 ->
                  count_ (latch_ (thread w2)) = 0).
  { intros H0. destruct (signalled (callee w)); [|lia].
    rewrite Hl', (Hmono eq_refl). reflexivity. }
  split; [|split; [|split; [|split]]].
  - destruct (signalled (callee w)); tauto.
  - rewrite in_countdown_iff, Hcd, Hl.
    destruct (signalled (callee w)); split; intros H; try lia.
  - rewrite Hcd. destruct (signalled (callee w)); lia.
  - exact Hkeep.
  - unfold wait_returns. intros H. apply Z.leb_le in H. apply Z.leb_le.
    assert (count_ (latch_ (thread w)) = 0).
    { destruct (signalled (callee w)); lia. }
    rewrite (Hkeep H0). lia.
Qed.

(** X10.  In every interleaving the trampoline works on a live
    [ThreadData]: each of its statements can be taken while the process
    has not aborted; the record exists when either side deletes it, is
    gone only before the spawn, after a failed [pthread_create], or once
    the new thread has run [delete data]; it is never deleted when the
    trampoline is left by the rethrow of line 109; while it exists it
    holds the user function and the name of the [Thread], its [tid_]
    pointer is set exactly until the [tid_ = nullptr] of line 81 has run
    and its [latch_] pointer exactly until the [latch_ = nullptr] of line
    83 has run. *)
Theorem trampoline_uses_a_live_record :
  forall (e : Env) (c : Z) (f : ThreadFunc) (name : string)
         (sched : list Actor),
    let t := snd (Thread_ctor c f name) in
    let w := exec e sched (at_start t) in
    (aborted w = false -> callee_final (callee w) = false ->
     exists w', callee_step e w = Some w'
                /\ callee w' = next_callee f (callee w))
    /\ (callee w = RunDelete -> heap w <> None)
    /\ (caller w = StartDelete -> heap w <> None /\ callee w = NotSpawned)
    /\ (heap w = None -> callee w = RunExited \/ callee w = NotSpawned)
    /\ (callee w = RunExited -> heap w = None)
    /\ (callee w = RunTerminated \/ callee w = RunUnwound -> heap w <> None)
    /\ (forall d, heap w = Some d ->
          detail.func_ d = f /\ detail.name_ d = name_ t
          /\ (detail.tid_ d = detail.addr_of_tid_
              <-> callee w = NotSpawned \/ callee w = RunPublish
                  \/ callee w = RunForgetTid)
          /\ (detail.latch_ d = detail.addr_of_latch_
              <-> callee w = NotSpawned \/ callee w = RunPublish
                  \/ callee w = RunForgetTid \/ callee w = RunCountDown
                  \/ callee w = RunForgetLatch)).
Proof.
  intros e c f name sched.
  pose proof (started_inv e c f name sched) as I.
  cbv zeta.
  generalize dependent (exec e sched (at_start (snd (Thread_ctor c f name)))).
  intros w I.
  pose proof (inv_heap _ _ _ _ I) as Hh.
  pose proof (inv_pcs _ _ _ _ I) as Hp.
  split; [|split; [|split; [|split; [|split; [|split]]]]].
  - intros Hab Hfin.
    destruct (callee_progress e f _ w I Hab Hfin) as (w' & H1 & H2 & _).
    exists w'. split; assumption.
  - intros Hk. rewrite Hh, Hk. discriminate.
  - intros Hc.
    assert (Hk : callee w = NotSpawned).
    { rewrite Hc in Hp. destruct (callee w); try reflexivity; cbn in Hp;
        rewrite andb_false_r in Hp; discriminate. }
    split; [|assumption]. rewrite Hh, Hk, Hc. discriminate.
  - intros Hn. rewrite Hh in Hn.
    destruct (callee w); try discriminate Hn; tauto.
  - intros Hk. rewrite Hh, Hk. reflexivity.
  - intros [Hk | Hk]; rewrite Hh, Hk; discriminate.
  - intros d Hd. rewrite Hh in Hd.
    destruct (callee w); cbn [heap_at] in Hd;
      try (destruct (caller w); try discriminate Hd);
      try discriminate Hd; injection Hd as <-; cbn;
      (split; [reflexivity|]); (split; [reflexivity|]);
      split; split; intros H; try reflexivity; try discriminate H;
      try tauto;
      repeat (destruct H as [H|H]; try discriminate H).
Qed.

(** *** How far the new thread is when [start()] returns *)

(** The world after the caller's first four statements and [n] statements
    of the new thread. *)
Lemma after_callee_steps e f nm n :
  create_rc e = 0 ->
  (forall i, (i < n)%nat ->
     callee_final (Nat.iter i (next_callee f) RunPublish) = false) ->
  let w := exec e ([Caller; Caller; Caller; Caller] ++ repeat Callee n)%list
             (at_start (constructed f nm)) in
  start_inv e f nm w
  /\ caller w = StartWait
  /\ callee w = Nat.iter n (next_callee f) RunPublish
  /\ (aborted w = true -> callee_final (callee w) = true).
Proof.
  intros Hrc Hmove. cbv zeta. rewrite exec_app.
  destruct (spawn_reaches_wait e f nm Hrc) as (Hc & Hk & Hab).
  pose proof (exec_inv e f nm [Caller; Caller; Caller; Caller] _
                (at_start_inv e f nm)) as I.
  cbv zeta in Hc, Hk, Hab.
  generalize dependent
    (exec e [Caller; Caller; Caller; Caller] (at_start (constructed f nm))).
  intros w Hc Hk Hab I.
  destruct (callee_runs e f nm n w I Hab) as (H1 & H2 & H3).
  { intros i Hi. rewrite Hk. now apply Hmove. }
  split; [now apply exec_inv|]. split; [congruence|].
  split; [congruence | exact H3].
Qed.

(** The caller's two statements after the latch was signalled. *)
Lemma caller_returns e f nm w :
  start_inv e f nm w -> aborted w = false -> caller w = StartWait ->
  signalled (callee w) = true ->
  NDEBUG (build e) = true \/ 0 < spawned_tid e ->
  exec e [Caller; Caller] w
  = set_caller StartReturned (set_caller StartAssertTid w).
Proof.
  intros I Hab Hc Hs Hok. cbn [exec step].
  rewrite (wait_passes e f nm w I Hab Hc Hs).
  assert (I' : start_inv e f nm (set_caller StartAssertTid w)).
  { eapply caller_step_inv; [exact I|].
    now apply (wait_passes e f nm w I Hab Hc Hs). }
  now rewrite (assert_tid_passes e f nm _ I' Hab eq_refl Hok).
Qed.

Lemma no_abort_event_not_aborted e f nm w :
  start_inv e f nm w -> caller w = StartWait ->
  ~ In EvAbort (trace w) -> aborted w = false.
Proof.
  intros I Hc Hn. destruct (aborted w) eqn:E; [|reflexivity].
  destruct (inv_aborted _ _ _ _ I E) as [H | [H | H]];
    try congruence; contradiction.
Qed.

(** X11.  When [pthread_create] succeeds and the assertion on the id
    passes, [start()] returns as soon as the trampoline has counted the
    latch down, with the user function not yet called; it equally returns
    when the new thread ran the function to its end first; and when the
    function throws a [LuteException] or [std::exception] before the
    caller gets to look, the process aborts with the caller still in
    [start()]. *)
Theorem start_does_not_wait_for_the_user_function :
  forall (e : Env) (c : Z) (f : ThreadFunc) (name : string),
    create_rc e = 0 ->
    NDEBUG (build e) = true \/ 0 < spawned_tid e ->
    let t := snd (Thread_ctor c f name) in
    let early := exec e handshake (at_start t) in
    let late :=
      exec e ([Caller; Caller; Caller; Caller]
              ++ repeat Callee (trampoline_length f)
              ++ [Caller; Caller])%list (at_start t) in
    (caller early = StartReturned /\ calls early = 0%nat
     /\ callee early = RunForgetLatch /\ aborted early = false)
    /\ (f = Returns ->
        caller late = StartReturned /\ callee late = RunExited
        /\ calls late = 1%nat /\ heap late = None /\ aborted late = false)
    /\ (forall ex, f = Throws ex -> ex <> OtherException ->
        caller late = StartWait /\ aborted late = true
        /\ calls late = 1%nat).
Proof.
  intros e c f name Hrc Hok.
  pose proof (Thread_ctor_constructed c f name) as Ht.
  cbv zeta. rewrite Ht.
  generalize (name_ (snd (Thread_ctor c f name))). intros nm.
  split; [|split].
  - unfold handshake. rewrite app_assoc, exec_app.
    destruct (after_callee_steps e f nm 3 Hrc) as (I & Hc & Hk & Hfin).
    { intros i Hi. destruct i as [|[|[|i]]]; try reflexivity; lia. }
    cbv zeta in I, Hc, Hk, Hfin. cbn [Nat.iter nat_rect next_callee] in Hk.
    generalize dependent
      (exec e ([Caller; Caller; Caller; Caller] ++ repeat Callee 3)%list
            (at_start (constructed f nm))).
    intros w I Hc Hk Hfin.
    assert (Hab : aborted w = false).
    { destruct (aborted w); [|reflexivity].
      specialize (Hfin eq_refl). rewrite Hk in Hfin. discriminate. }
    rewrite (caller_returns e f nm w I Hab Hc) by (rewrite ?Hk; auto).
    cbn [caller calls callee aborted set_caller].
    repeat split; try assumption.
    rewrite (inv_calls _ _ _ _ I), (inv_trace _ _ _ _ I), Hk. reflexivity.
  - intros ->. rewrite app_assoc, exec_app.
    destruct (after_callee_steps e Returns nm 9 Hrc) as (I & Hc & Hk & _).
    { intros i Hi.
      do 9 (destruct i as [|i]; [reflexivity|]). lia. }
    cbv zeta in I, Hc, Hk. cbn [Nat.iter nat_rect next_callee] in Hk.
    cbn [trampoline_length].
    generalize dependent
      (exec e ([Caller; Caller; Caller; Caller] ++ repeat Callee 9)%list
            (at_start (constructed Returns nm))).
    intros w I Hc Hk.
    assert (Hab : aborted w = false).
    { apply (no_abort_event_not_aborted _ _ _ _ I Hc).
      rewrite (inv_trace _ _ _ _ I), Hk. cbn. intuition discriminate. }
    rewrite (caller_returns e Returns nm w I Hab Hc) by (rewrite ?Hk; auto).
    cbn [caller calls callee aborted heap set_caller].
    repeat split; try assumption.
    + rewrite (inv_calls _ _ _ _ I), (inv_trace _ _ _ _ I), Hk. reflexivity.
    + rewrite (inv_heap _ _ _ _ I), Hk. reflexivity.
  - intros ex -> Hex. rewrite app_assoc, exec_app.
    destruct (after_callee_steps e (Throws ex) nm
                (trampoline_length (Throws ex)) Hrc) as (I & Hc & Hk & _).
    { intros i Hi. destruct ex as [a b|a|]; [| |contradiction];
        cbn [trampoline_length] in Hi;
        do 12 (destruct i as [|i]; [first [reflexivity | exfalso; lia]|]);
        exfalso; lia. }
    cbv zeta in I, Hc, Hk.
    generalize dependent
      (exec e ([Caller; Caller; Caller; Caller]
               ++ repeat Callee (trampoline_length (Throws ex)))%list
            (at_start (constructed (Throws ex) nm))).
    intros w I Hc Hk.
    assert (Hab : aborted w = true).
    { apply (inv_abort _ _ _ _ I). rewrite (inv_trace _ _ _ _ I), Hk.
      destruct ex as [a b|a|]; [| |contradiction]; cbn; tauto. }
    assert (Hstay : exec e [Caller; Caller] w = w).
    { cbn [exec step]. unfold caller_step. now rewrite Hab. }
    rewrite Hstay. repeat split; try assumption.
    rewrite (inv_calls _ _ _ _ I), (inv_trace _ _ _ _ I), Hk.
    destruct ex as [a b|a|]; [| |contradiction]; reflexivity.
Qed.

Lemma start_does_not_wait_for_the_user_function_witness :
  caller (exec example_env handshake
            (at_start (snd (Thread_ctor numCreated_initial Returns ""))))
  = StartReturned
  /\ calls (exec example_env handshake
              (at_start (snd (Thread_ctor numCreated_initial Returns ""))))
     = 0%nat.
Proof.
  pose proof (start_does_not_wait_for_the_user_function example_env
                numCreated_initial Returns "" eq_refl (or_intror eq_refl))
    as H.
  cbv zeta in H. destruct H as ((H1 & H2 & _) & _).
  split; assumption.
Defined.

(** *** [join()] after [start()] *)

Lemma callee_step_as_start e w w' :
  callee_step e w = Some w' ->
  callee_step e (as_start w) = Some (as_start w')
  /\ caller w' = caller w
  /\ joined_ (thread w') = joined_ (thread w).
Proof.
  destruct w as [t h cpc kpc me os n err ab tr].
  destruct t as [st jo pid td fn nm la].
  unfold callee_step, as_start. cbn -[CurrentThread.tid handler].
  destruct ab; [discriminate|].
  destruct (CurrentThread.tid me) as [v me'].
  destruct kpc as [| | | | | | | | |ex k|ex| | | |]; try discriminate;
    destruct h as [d|]; try discriminate.
  1-8, 10-11:
    repeat match goal with
           | |- context [match caught ?x with _ => _ end] =>
               destruct x; cbn [caught]
           | |- context [match ?x with _ => _ end] =>
               match type of x with
               | detail.pointer => destruct x
               | ThreadFunc => destruct x
               end
           end;
    try discriminate; intros H; injection H as <-; repeat split.
  destruct ex as [a b|a|];
    do 6 (destruct k as [|k];
          [cbn; first [discriminate
                      | intros H; injection H as <-; repeat split]|]);
    cbn; discriminate.
Qed.

Lemma as_start_fields w :
  callee (as_start w) = callee w
  /\ heap (as_start w) = heap w
  /\ calls (as_start w) = calls w
  /\ stderr (as_start w) = stderr w
  /\ trace (as_start w) = trace w
  /\ aborted (as_start w) = aborted w
  /\ callee_self (as_start w) = callee_self w
  /\ started_ (thread (as_start w)) = started_ (thread w)
  /\ tid_ (thread (as_start w)) = tid_ (thread w).
Proof. repeat split. Qed.

Lemma call_join_inv e f nm w :
  start_inv e f nm w -> caller w = StartReturned ->
  join_inv e f nm (call_join w).
Proof.
  intros I Hc.
  pose proof (inv_joined _ _ _ _ I) as Hj.
  assert (E : as_start (call_join w) = w).
  { destruct w as [t h cpc kpc me os n err ab tr].
    destruct t as [st jo pid td fn nm' la].
    cbn in Hc, Hj. subst cpc jo. reflexivity. }
  unfold join_inv. rewrite E. split; [assumption|].
  split; [reflexivity|]. split; [exact Hj|]. split; [discriminate|].
  cbn [aborted call_join set_caller trace]. intros Hab.
  destruct (inv_aborted _ _ _ _ I Hab) as [H | [H | H]];
    try congruence.
Qed.

Lemma join_inv_callee_step e f nm w w' :
  join_inv e f nm w -> callee_step e w = Some w' -> join_inv e f nm w'.
Proof.
  intros (I & Hin & Hj & Hret & Hab) H.
  destruct (callee_step_as_start e w w' H) as (H' & Hc & Hjo).
  pose proof (callee_step_inv e f nm _ _ I H') as I'.
  destruct (callee_step_some e w w' H) as [_ Hfin].
  unfold join_inv. rewrite Hc, Hjo.
  split; [assumption|]. split; [assumption|]. split; [assumption|]. split.
  - intros rc Hrc. destruct (Hret rc Hrc) as [_ [Hk | Hk]];
      rewrite Hk in Hfin; discriminate.
  - intros Hab'. apply (inv_aborted _ _ _ _ I') in Hab'.
    destruct Hab' as [Hx | [Hx | Hx]]; try discriminate Hx. exact Hx.
Qed.

Lemma join_inv_caller_step e f nm w w' :
  join_inv e f nm w -> caller_step e w = Some w' -> join_inv e f nm w'.
Proof.
  intros (I & Hin & Hj & Hret & Hab) H.
  pose proof (inv_started _ _ _ _ I) as Hs. cbn in Hs.
  pose proof (inv_pcs _ _ _ _ I) as Hp.
  destruct w as [t h cpc kpc me os n err ab tr].
  destruct t as [st jo pid td fn nm' la].
  cbn in Hs, Hj, Hin, Hp. subst st.
  unfold caller_step in H. cbn -[assert_passes] in H.
  destruct ab; [discriminate|].
  destruct cpc; try discriminate Hin; cbn in Hj; subst jo;
    cbn -[assert_passes] in H; rewrite ?assert_passes_true in H.
  - injection H as <-. unfold join_inv.
    split; [exact I|]. split; [reflexivity|]. split; [reflexivity|].
    split; [intros rc Hrc; discriminate Hrc | exact Hab].
  - injection H as <-. unfold join_inv.
    split; [exact I|]. split; [reflexivity|]. split; [reflexivity|].
    split; [intros rc Hrc; discriminate Hrc | exact Hab].
  - injection H as <-. unfold join_inv.
    split; [exact I|]. split; [reflexivity|]. split; [reflexivity|].
    split; [intros rc Hrc; discriminate Hrc | exact Hab].
  - destruct kpc; try discriminate H; injection H as <-.
    + cbn in Hp. discriminate.
    + unfold join_inv.
      split; [exact I|]. split; [reflexivity|]. split; [reflexivity|].
      split; [|exact Hab].
      intros rc Hrc. injection Hrc as <-. split; [reflexivity | now right].
    + unfold join_inv.
      split; [exact I|]. split; [reflexivity|]. split; [reflexivity|].
      split; [|exact Hab].
      intros rc Hrc. injection Hrc as <-. split; [reflexivity | now left].
  - discriminate.
Qed.

Lemma join_inv_exec e f nm sched : forall w,
  join_inv e f nm w -> join_inv e f nm (exec e sched w).
Proof.
  induction sched as [|a rest IH]; intros w Hw; cbn [exec]; [assumption|].
  destruct (step e a w) as [w'|] eqn:E; [|now apply IH].
  apply IH. destruct a; cbn [step] in E.
  - eapply join_inv_caller_step; eassumption.
  - eapply join_inv_callee_step; eassumption.
Qed.

Lemma abort_event_means_throw ktid nm f k :
  outcome_ok f k -> In EvAbort (trace_at ktid nm k) ->
  exists ex, f = Throws ex.
Proof.
  intros Ho Hin.
  destruct k as [| | | | | | | | |ex n|ex| | | |]; cbn in Hin, Ho;
    try (exfalso; intuition discriminate).
  - destruct Ho as [Ho _].
    destruct f as [|ex0|]; try discriminate Ho; [now exists ex0|].
    injection Ho as <-. exfalso.
    do 4 (destruct n as [|n]; [cbn in Hin; intuition discriminate|]).
    cbn in Hin. intuition discriminate.
  - destruct Ho as [-> _]. exfalso. cbn in Hin. intuition discriminate.
  - now exists OtherException.
Qed.

Lemma join_facts e f nm w :
  join_inv e f nm w ->
  started_ (thread w) = true
  /\ joined_ (thread w) = joined_at (caller w)
  /\ (caller w = JoinPthreadJoin ->
      callee w <> RunExited -> callee w <> RunUnwound ->
      caller_step e w = None)
  /\ (forall rc, caller w = JoinReturned rc ->
        rc = join_rc e /\ aborted w = false /\ calls w = 1%nat
        /\ (callee w = RunExited /\ f = Returns
            /\ heap w = None /\ stderr w = []
            /\ CurrentThread.t_threadName
                 (CurrentThread.tls (callee_self w)) = "finished"
            \/ callee w = RunUnwound /\ f = Unwinds
               /\ heap w <> None
               /\ stderr w = ["unknown exception caught in Thread "
                              ++ c_str nm ++ newline]
               /\ CurrentThread.t_threadName
                    (CurrentThread.tls (callee_self w)) = "crashed"))
  /\ (aborted w = true -> exists ex, f = Throws ex)
  /\ (callee w = RunTerminated ->
      aborted w = true /\ caller_step e w = None).
Proof.
  intros (I & Hin & Hj & Hret & Hab).
  destruct (as_start_fields w)
    as (Ek & Eh & Ec & Ee & Et & Ea & Es & Est & Etid).
  pose proof (inv_started _ _ _ _ I) as Hs. rewrite Est in Hs. cbn in Hs.
  pose proof (inv_pcs _ _ _ _ I) as Hp. rewrite Ek in Hp.
  pose proof (inv_trace _ _ _ _ I) as Ht. rewrite Et, Ek in Ht.
  pose proof (inv_outcome _ _ _ _ I) as Ho. rewrite Ek in Ho.
  pose proof (inv_calls _ _ _ _ I) as Hcalls. rewrite Ec, Et in Hcalls.
  pose proof (inv_heap _ _ _ _ I) as Hh. rewrite Eh, Ek in Hh.
  pose proof (inv_stderr _ _ _ _ I) as He. rewrite Ee, Et in He.
  pose proof (inv_self _ _ _ _ I) as Hself. rewrite Ek, Es, Et in Hself.
  pose proof (inv_abort _ _ _ _ I) as Habt. rewrite Et, Ea in Habt.
  assert (Habort : aborted w = true -> exists ex, f = Throws ex).
  { intros H. apply Hab in H. rewrite Ht in H.
    eapply abort_event_means_throw; eassumption. }
  split; [assumption|]. split; [assumption|].
  split; [|split; [|split]].
  - intros Hc Hk Hu. unfold caller_step.
    destruct (aborted w); [reflexivity|]. rewrite Hc.
    destruct (callee w); try reflexivity; try contradiction.
    cbn in Hp. discriminate.
  - intros rc Hrc. destruct (Hret rc Hrc) as [-> [Hk | Hk]];
      rewrite Hk in *; cbn [trace_at outcome_ok handler_events] in Ht, Ho;
      rewrite Ht in Hcalls, He; cbn in Hcalls, He, Hh;
      (destruct Hself as (_ & _ & Hn); [discriminate|]);
      rewrite Ht in Hn; cbn in Hn;
      (assert (Hna : aborted w = false);
       [destruct (aborted w) eqn:E; [|reflexivity];
        destruct (Habort eq_refl) as [ex Hex]; congruence|]).
    + split; [reflexivity|]. split; [assumption|]. split; [assumption|].
      left. repeat split; assumption.
    + split; [reflexivity|]. split; [assumption|]. split; [assumption|].
      right. repeat split; try assumption. rewrite Hh. discriminate.
  - exact Habort.
  - intros Hk.
    assert (Ha : aborted w = true).
    { apply Habt. rewrite Ht, Hk. cbn. tauto. }
    split; [exact Ha|]. unfold caller_step. now rewrite Ha.
Qed.

Lemma join_runs e f nm w :
  join_inv e f nm w -> aborted w = false ->
  caller w = JoinAssertStarted ->
  callee w = RunExited \/ callee w = RunUnwound ->
  caller (exec e [Caller; Caller; Caller; Caller] w)
  = JoinReturned (join_rc e).
Proof.
  intros J Hab Hc Hk.
  destruct (join_facts e f nm w J) as (Hs & Hj & _).
  destruct w as [t h cpc kpc me os n err ab tr].
  destruct t as [st jo pid td fn nm' la].
  cbn in Hab, Hc, Hk, Hs, Hj. subst ab cpc st jo.
  cbn [exec step]. unfold caller_step; cbn -[assert_passes].
  rewrite assert_passes_true; cbn -[assert_passes].
  rewrite assert_passes_true; cbn -[assert_passes].
  destruct Hk as [-> | ->]; reflexivity.
Qed.

(** The schedule on which the new thread runs to its end before the
    caller looks at the latch. *)
Lemma late_return e nm :
  create_rc e = 0 ->
  NDEBUG (build e) = true \/ 0 < spawned_tid e ->
  let w := exec e ([Caller; Caller; Caller; Caller] ++ repeat Callee 9
                   ++ [Caller; Caller])%list
             (at_start (constructed Returns nm)) in
  start_inv e Returns nm w
  /\ caller w = StartReturned /\ callee w = RunExited /\ aborted w = false.
Proof.
  intros Hrc Hok. cbv zeta.
  pose proof (exec_inv e Returns nm
                ([Caller; Caller; Caller; Caller] ++ repeat Callee 9
                 ++ [Caller; Caller])%list _ (at_start_inv e Returns nm))
    as Iall.
  split; [exact Iall|]. clear Iall.
  rewrite app_assoc, exec_app.
  destruct (after_callee_steps e Returns nm 9 Hrc) as (I & Hc & Hk & _).
  { intros i Hi. do 9 (destruct i as [|i]; [reflexivity|]). lia. }
  cbv zeta in I, Hc, Hk. cbn [Nat.iter nat_rect next_callee caught] in Hk.
  generalize dependent
    (exec e ([Caller; Caller; Caller; Caller] ++ repeat Callee 9)%list
          (at_start (constructed Returns nm))).
  intros w I Hc Hk.
  assert (Hab : aborted w = false).
  { apply (no_abort_event_not_aborted _ _ _ _ I Hc).
    rewrite (inv_trace _ _ _ _ I), Hk. cbn. intuition discriminate. }
  rewrite (caller_returns e Returns nm w I Hab Hc) by (rewrite ?Hk; auto).
  repeat split; assumption.
Qed.

(** The same for a function inside which the thread is ended. *)
Lemma late_unwind e nm :
  create_rc e = 0 ->
  NDEBUG (build e) = true \/ 0 < spawned_tid e ->
  let w := exec e ([Caller; Caller; Caller; Caller] ++ repeat Callee 11
                   ++ [Caller; Caller])%list
             (at_start (constructed Unwinds nm)) in
  start_inv e Unwinds nm w
  /\ caller w = StartReturned /\ callee w = RunUnwound /\ aborted w = false.
Proof.
  intros Hrc Hok. cbv zeta.
  pose proof (exec_inv e Unwinds nm
                ([Caller; Caller; Caller; Caller] ++ repeat Callee 11
                 ++ [Caller; Caller])%list _ (at_start_inv e Unwinds nm))
    as Iall.
  split; [exact Iall|]. clear Iall.
  rewrite app_assoc, exec_app.
  destruct (after_callee_steps e Unwinds nm 11 Hrc) as (I & Hc & Hk & _).
  { intros i Hi. do 11 (destruct i as [|i]; [reflexivity|]). lia. }
  cbv zeta in I, Hc, Hk. cbn [Nat.iter nat_rect next_callee caught] in Hk.
  generalize dependent
    (exec e ([Caller; Caller; Caller; Caller] ++ repeat Callee 11)%list
          (at_start (constructed Unwinds nm))).
  intros w I Hc Hk.
  assert (Hab : aborted w = false).
  { apply (no_abort_event_not_aborted _ _ _ _ I Hc).
    rewrite (inv_trace _ _ _ _ I), Hk. cbn. intuition discriminate. }
  rewrite (caller_returns e Unwinds nm w I Hab Hc) by (rewrite ?Hk; auto).
  repeat split; assumption.
Qed.

(** X12.  [join()] called after [start()] has returned, in any
    interleaving with the new thread: [started_] stays true, [joined_] is
    set from line 216 on, and the caller waits in [pthread_join] as long
    as the new thread has not ended.  When [join()] returns it returns
    what [pthread_join] gave, the process has not aborted, the user
    function was called once, and either it returned, the [ThreadData] is
    freed, nothing was written to stderr and the thread's name is
    "finished", or the thread was ended inside it (a forced unwinding
    through the [catch (...)] of line 105), the [ThreadData] was never
    deleted, stderr holds the one line "unknown exception caught in
    Thread <name>" and the thread's name is "crashed".  The process
    aborts in this phase only when the user function throws; after an
    exception of no known type has left the trampoline the process is
    gone and [join()] does not return.  The second way out is taken: when
    creation succeeds and the thread is ended inside the user function,
    there is a run on which [start()] and then [join()] return. *)
Theorem join_returns_after_the_thread_has_exited :
  forall (e : Env) (c : Z) (f : ThreadFunc) (name : string)
         (s1 s2 : list Actor),
    let t := snd (Thread_ctor c f name) in
    let w1 := exec e s1 (at_start t) in
    let w2 := exec e s2 (call_join w1) in
    caller w1 = StartReturned ->
    started_ (thread w2) = true
    /\ joined_ (thread w2) = joined_at (caller w2)
    /\ (caller w2 = JoinPthreadJoin ->
        callee w2 <> RunExited -> callee w2 <> RunUnwound ->
        caller_step e w2 = None)
    /\ (forall rc, caller w2 = JoinReturned rc ->
          rc = join_rc e /\ aborted w2 = false /\ calls w2 = 1%nat
          /\ (callee w2 = RunExited /\ f = Returns
              /\ heap w2 = None /\ stderr w2 = []
              /\ CurrentThread.t_threadName
                   (CurrentThread.tls (callee_self w2)) = "finished"
              \/ callee w2 = RunUnwound /\ f = Unwinds
                 /\ heap w2 <> None
                 /\ stderr w2 = ["unknown exception caught in Thread "
                                 ++ c_str (name_ t) ++ newline]
                 /\ CurrentThread.t_threadName
                      (CurrentThread.tls (callee_self w2)) = "crashed"))
    /\ (aborted w2 = true -> exists ex, f = Throws ex)
    /\ (callee w2 = RunTerminated ->
        aborted w2 = true /\ caller_step e w2 = None)
    /\ (f = Unwinds -> create_rc e = 0 ->
        NDEBUG (build e) = true \/ 0 < spawned_tid e ->
        let w3 := exec e ([Caller; Caller; Caller; Caller]
                          ++ repeat Callee 11 ++ [Caller; Caller])%list
                    (at_start t) in
        let w4 := exec e [Caller; Caller; Caller; Caller] (call_join w3) in
        caller w3 = StartReturned
        /\ caller w4 = JoinReturned (join_rc e)
        /\ callee w4 = RunUnwound).
Proof.
  intros e c f name s1 s2.
  pose proof (started_inv e c f name s1) as I.
  pose proof (Thread_ctor_constructed c f name) as Ht.
  cbv zeta.
  generalize dependent (exec e s1 (at_start (snd (Thread_ctor c f name)))).
  intros w1 I Hc.
  destruct (join_facts e f (name_ (snd (Thread_ctor c f name)))
              (exec e s2 (call_join w1)))
    as (F1 & F2 & F3 & F4 & F5 & F6).
  { apply join_inv_exec. now apply call_join_inv. }
  split; [exact F1|]. split; [exact F2|]. split; [exact F3|].
  split; [exact F4|]. split; [exact F5|]. split; [exact F6|].
  clear w1 I Hc F1 F2 F3 F4 F5 F6.
  intros -> Hrc Hok. rewrite Ht.
  generalize (name_ (snd (Thread_ctor c Unwinds name))). intros nm.
  destruct (late_unwind e nm Hrc Hok) as (I & Hc & Hk & Hab).
  cbv zeta in I, Hc, Hk, Hab.
  generalize dependent
    (exec e ([Caller; Caller; Caller; Caller] ++ repeat Callee 11
             ++ [Caller; Caller])%list (at_start (constructed Unwinds nm))).
  intros w3 I Hc Hk Hab.
  split; [assumption|].
  pose proof (call_join_inv e Unwinds nm w3 I Hc) as J.
  pose proof (join_runs e Unwinds nm (call_join w3) J Hab eq_refl
                (or_intror Hk)) as Hret.
  pose proof (join_inv_exec e Unwinds nm [Caller; Caller; Caller; Caller]
                _ J) as J'.
  generalize dependent
    (exec e [Caller; Caller; Caller; Caller] (call_join w3)).
  intros w4 Hret J'.
  split; [exact Hret|].
  destruct (join_facts e Unwinds nm w4 J') as (_ & _ & _ & Hfacts & _).
  destruct (Hfacts _ Hret) as (_ & _ & _ & [(_ & Hf & _) | (Hu & _)]);
    [discriminate Hf | exact Hu].
Qed.

Lemma join_returns_after_the_thread_has_exited_witness :
  started_ (thread (exec example_env [Caller; Callee; Caller]
                      (call_join
                         (exec example_env handshake
                            (at_start (snd (Thread_ctor numCreated_initial
                                              Returns "worker")))))))
  = true.
Proof.
  exact (proj1 (join_returns_after_the_thread_has_exited example_env
                  numCreated_initial Returns "worker" handshake
                  [Caller; Callee; Caller] eq_refl)).
Defined.

(** X13.  [~Thread()] detaches exactly a thread that was started and
    not joined: not a [Thread] just constructed; during [start()] as
    [started_] stands (so not after the roll-back of a failed
    [pthread_create]); after [start()] has returned; and during and
    after [join()] only up to line 216, where [joined_] is set. *)
Theorem destructor_detaches_started_unjoined_threads :
  forall (e : Env) (c : Z) (f : ThreadFunc) (name : string)
         (s1 s2 : list Actor),
    let t := snd (Thread_ctor c f name) in
    let w1 := exec e s1 (at_start t) in
    let w2 := exec e s2 (call_join w1) in
    Thread_dtor_detaches t = false
    /\ Thread_dtor_detaches (thread w1) = started_at (caller w1)
    /\ (aborted w1 = true -> callee w1 = NotSpawned ->
        Thread_dtor_detaches (thread w1) = false)
    /\ (caller w1 = StartReturned ->
        Thread_dtor_detaches (thread w1) = true
        /\ Thread_dtor_detaches (thread w2) = negb (joined_at (caller w2))).
Proof.
  intros e c f name s1 s2.
  pose proof (started_inv e c f name s1) as I.
  pose proof (Thread_ctor_constructed c f name) as Ht.
  cbv zeta. split; [rewrite Ht; reflexivity|].
  generalize dependent (exec e s1 (at_start (snd (Thread_ctor c f name)))).
  intros w1 I.
  assert (H1 : Thread_dtor_detaches (thread w1) = started_at (caller w1)).
  { unfold Thread_dtor_detaches.
    rewrite (inv_started _ _ _ _ I), (inv_joined _ _ _ _ I).
    apply andb_true_r. }
  split; [exact H1|]. split.
  - intros Hab Hk. rewrite H1.
    destruct (inv_aborted _ _ _ _ I Hab) as [H | [H | H]].
    + now rewrite H.
    + pose proof (inv_pcs _ _ _ _ I) as Hp. rewrite H, Hk in Hp.
      discriminate.
    + rewrite (inv_trace _ _ _ _ I), Hk in H. contradiction.
  - intros Hc. split; [rewrite H1, Hc; reflexivity|].
    destruct (join_facts e f (name_ (snd (Thread_ctor c f name)))
                (exec e s2 (call_join w1)))
      as (Hs & Hj & _).
    { apply join_inv_exec. now apply call_join_inv. }
    unfold Thread_dtor_detaches. now rewrite Hs, Hj.
Qed.

(** X14.  A run of the whole life of a [Thread] exists: when
    [pthread_create] succeeds, the assertion on the id passes and the
    user function returns, [start()] returns, a following [join()]
    returns what [pthread_join] gave, the function was called once, the
    [ThreadData] is freed, nothing was written to stderr, the process did
    not abort, and the destructor has nothing left to detach. *)
Theorem start_then_join_completes :
  forall (e : Env) (c : Z) (name : string),
    create_rc e = 0 ->
    NDEBUG (build e) = true \/ 0 < spawned_tid e ->
    let t := snd (Thread_ctor c Returns name) in
    let w1 := exec e ([Caller; Caller; Caller; Caller] ++ repeat Callee 9
                      ++ [Caller; Caller])%list (at_start t) in
    let w2 := exec e [Caller; Caller; Caller; Caller] (call_join w1) in
    caller w1 = StartReturned
    /\ caller w2 = JoinReturned (join_rc e)
    /\ calls w2 = 1%nat /\ heap w2 = None /\ stderr w2 = []
    /\ aborted w2 = false
    /\ joined_ (thread w2) = true
    /\ Thread_dtor_detaches (thread w2) = false.
Proof.
  intros e c name Hrc Hok.
  pose proof (Thread_ctor_constructed c Returns name) as Ht.
  cbv zeta. rewrite Ht.
  generalize (name_ (snd (Thread_ctor c Returns name))). intros nm.
  destruct (late_return e nm Hrc Hok) as (I & Hc & Hk & Hab).
  cbv zeta in I, Hc, Hk, Hab.
  generalize dependent
    (exec e ([Caller; Caller; Caller; Caller] ++ repeat Callee 9
             ++ [Caller; Caller])%list (at_start (constructed Returns nm))).
  intros w1 I Hc Hk Hab.
  split; [assumption|].
  pose proof (call_join_inv e Returns nm w1 I Hc) as J.
  pose proof (join_runs e Returns nm (call_join w1) J Hab eq_refl
                (or_introl Hk)) as Hret.
  pose proof (join_inv_exec e Returns nm [Caller; Caller; Caller; Caller]
                _ J) as J'.
  generalize dependent
    (exec e [Caller; Caller; Caller; Caller] (call_join w1)).
  intros w2 Hret J'.
  destruct (join_facts e Returns nm w2 J') as (Hs & Hj & _ & Hfacts & _).
  destruct (Hfacts _ Hret)
    as (_ & F4 & F1 & [(_ & _ & F2 & F3 & _) | (_ & Hf & _)]);
    [|discriminate Hf].
  rewrite Hret in Hj. cbn in Hj.
  repeat split; try assumption.
  unfold Thread_dtor_detaches. now rewrite Hs, Hj.
Qed.

Lemma start_then_join_completes_witness :
  caller (exec example_env [Caller; Caller; Caller; Caller]
            (call_join
               (exec example_env
                  ([Caller; Caller; Caller; Caller] ++ repeat Callee 9
                   ++ [Caller; Caller])%list
                  (at_start (snd (Thread_ctor numCreated_initial
                                    Returns "worker"))))))
  = JoinReturned (join_rc example_env).
Proof.
  pose proof (start_then_join_completes example_env numCreated_initial
                "worker" eq_refl (or_intror eq_refl)) as H.
  cbv zeta in H. destruct H as (_ & H2 & _). exact H2.
Defined.
